(** * The memory-mapped sequence store ([modules/mmap_store.py])

    A shallow embedding of the store builder [build_sequence_store] and of
    the reader class [SequenceMmapStore], followed by the properties of the
    pair: what a build writes and in which order, what a lookup finds, and
    which resources an exit path leaves open.

    Python objects are modelled by their contents.  [bytes], [bytearray] and
    one-dimensional byte [memoryview]s are all [PyBytes]; text is a list of
    code points.  The mapping [seq_dict] is the list of its items in
    iteration order; that its keys are pairwise distinct is a hypothesis
    [NoDup] of the properties that need it.  Files are a finite map from
    path to contents, and the file objects and mappings a program holds are
    identifiers in the set of live resources of the [world]: a resource
    leaves the set when it is closed, and no collector closes what the code
    left open. *)

From Stdlib Require Import ZArith List Lia String Ascii Bool Sorted.
From Stdlib Require Import Strings.Byte.
From coqutil Require Import Byte Word.LittleEndianList.
From stdpp Require Import gmap strings list sorting.

Local Open Scope Z_scope.

(** ** Python values *)

Abbreviation bytes := (list byte).

(** A [str]: its Unicode code points. *)
Definition pystr := list Z.

Inductive pyobj :=
| PyNone
| PyStr (s : pystr)
| PyBytes (b : bytes).

(** The values of [seq_dict]: text or a byte sequence. *)
Inductive seq_value :=
| SeqStr (s : pystr)
| SeqBytes (b : bytes).

(** The exceptions of the module and of the library calls it makes.
    [StructError] is [struct.error]; [ReleaseError] stands for whatever the
    [close] of a mapping or of a file object raises ([BufferError] while a
    buffer of the mapping is exported, [OSError]). *)
Inductive exn :=
| ValueError (msg : string)
| TypeError
| KeyError (key : pyobj)
| StructError
| UnicodeEncodeError
| UnicodeDecodeError
| FileNotFoundError (path : string)
| ReleaseError (id : nat).

Inductive result (A : Type) :=
| Ok (a : A)
| Raise (e : exn).
Arguments Ok {A} a.
Arguments Raise {A} e.

Definition rbind {A B} (r : result A) (f : A -> result B) : result B :=
  match r with
  | Ok a => f a
  | Raise e => Raise e
  end.

Definition len {A} (l : list A) : Z := Z.of_nat (length l).

(** [isinstance(o, (bytes, bytearray, memoryview))] *)
Definition is_bytes_like (o : pyobj) : bool :=
  match o with
  | PyBytes _ => true
  | _ => false
  end.

(** [bytes(o)] for a byte sequence; text and [None] have no byte form. *)
Definition py_bytes (o : pyobj) : result bytes :=
  match o with
  | PyBytes b => Ok b
  | _ => Raise TypeError
  end.

(** [len(o)] *)
Definition py_len (o : pyobj) : result Z :=
  match o with
  | PyBytes b => Ok (len b)
  | PyStr s => Ok (len s)
  | PyNone => Raise TypeError
  end.

(** [s.encode("ascii")]: strict, one byte per character. *)
Definition encode_ascii (s : pystr) : result bytes :=
  if forallb (fun c => (0 <=? c) && (c <? 128)) s
  then Ok (map byte.of_Z s)
  else Raise UnicodeEncodeError.

(** [b.decode("ascii")]: strict, one character per byte. *)
Definition decode_ascii (b : bytes) : result pystr :=
  if forallb (fun x => byte.unsigned x <? 128) b
  then Ok (map byte.unsigned b)
  else Raise UnicodeDecodeError.

(** Comparison of [bytes]: lexicographic on the unsigned byte values, a
    proper prefix being smaller. *)
Fixpoint bytes_compare (a b : bytes) : comparison :=
  match a, b with
  | [], [] => Eq
  | [], _ :: _ => Lt
  | _ :: _, [] => Gt
  | x :: a', y :: b' =>
      match byte.compare x y with
      | Eq => bytes_compare a' b'
      | c => c
      end
  end.

Definition bytes_eqb (a b : bytes) : bool :=
  match bytes_compare a b with Eq => true | _ => false end.

Definition bytes_ltb (a b : bytes) : bool :=
  match bytes_compare a b with Lt => true | _ => false end.

(** A slice [buf[start:stop]] with Python's index normalisation. *)
Definition slice_index (i n : Z) : Z :=
  if i <? 0 then Z.max 0 (i + n) else Z.min i n.

Definition slice (buf : bytes) (start stop : Z) : bytes :=
  let a := slice_index start (len buf) in
  let b := slice_index stop (len buf) in
  take (Z.to_nat (b - a)) (drop (Z.to_nat a) buf).

(** ** The [struct] layouts *)

Definition MAGIC : bytes :=
  ["U"; "L"; "T"; "R"; "A"; "M"; "M"; "1"]%byte.

(** One little-endian unsigned field of [n] bytes; [struct.pack] raises
    [struct.error] on a value out of range. *)
Definition pack_uint (n : nat) (z : Z) : result bytes :=
  if (0 <=? z) && (z <? 2 ^ (8 * Z.of_nat n))
  then Ok (le_split n z)
  else Raise StructError.

(** The start of the unpacked region: a negative offset counts from the end
    of the buffer; fewer than [size] bytes from there is a [struct.error]. *)
Definition unpack_base (size : Z) (buf : bytes) (offset : Z) : result nat :=
  let off := if offset <? 0 then offset + len buf else offset in
  if (0 <=? off) && (off + size <=? len buf)
  then Ok (Z.to_nat off)
  else Raise StructError.

Module HEADER_STRUCT.
(** ["<8sIQ"]: magic, key_size, record_count; little-endian, no padding. *)
Definition size : Z := 20.

Definition pack (magic : bytes) (key_size count : Z) : result bytes :=
  rbind (pack_uint 4 key_size) (fun ks =>
  rbind (pack_uint 8 count) (fun cnt =>
  Ok (resize 8 "000"%byte magic ++ ks ++ cnt))).

Definition unpack_from (buf : bytes) (offset : Z) : result (bytes * Z * Z) :=
  rbind (unpack_base size buf offset) (fun off =>
  let b := drop off buf in
  Ok (take 8 b, le_combine (take 4 (drop 8 b)), le_combine (take 8 (drop 12 b)))).
End HEADER_STRUCT.

Module OFFSET_STRUCT.
(** ["<QI"]: offset, length; little-endian, no padding. *)
Definition size : Z := 12.

Definition pack (offset length : Z) : result bytes :=
  rbind (pack_uint 8 offset) (fun o =>
  rbind (pack_uint 4 length) (fun l =>
  Ok (o ++ l))).

Definition unpack_from (buf : bytes) (offset : Z) : result (Z * Z) :=
  rbind (unpack_base size buf offset) (fun off =>
  let b := drop off buf in
  Ok (le_combine (take 8 b), le_combine (take 4 (drop 8 b)))).
End OFFSET_STRUCT.

(** ** The world: files, live resources, and the log of write-side calls *)

(** The calls on files opened for writing, in the order they are made. *)
Inductive event :=
| EvOpen (path : string)
| EvWrite (path : string) (data : bytes)
| EvClose (path : string).

(** The files by path; the identifiers of the file objects and mappings
    that are open; the next fresh identifier; the resources whose release
    raises; the log. *)
Record world := World {
  w_files : gmap string bytes;
  w_live : gset nat;
  w_next : nat;
  w_faulty : gset nat;
  w_trace : list event
}.

(** A computation runs in a world and returns a value or raises; the
    effects made before a raise stay. *)
Definition IO (A : Type) : Type := world -> result A * world.

Definition ret {A} (a : A) : IO A := fun w => (Ok a, w).

Definition raise {A} (e : exn) : IO A := fun w => (Raise e, w).

Definition bind {A B} (m : IO A) (f : A -> IO B) : IO B :=
  fun w =>
    match m w with
    | (Ok a, w') => f a w'
    | (Raise e, w') => (Raise e, w')
    end.

Definition lift {A} (r : result A) : IO A := fun w => (r, w).

(** [try: body finally: cleanup]: the cleanup always runs; an exception of
    the cleanup replaces the outcome of the body. *)
Definition try_finally {A} (body : IO A) (cleanup : IO unit) : IO A :=
  fun w =>
    match body w with
    | (r, w1) =>
        match cleanup w1 with
        | (Ok _, w2) => (r, w2)
        | (Raise e, w2) => (Raise e, w2)
        end
    end.

Declare Scope io_scope.
Delimit Scope io_scope with io.
Notation "'do' x <- c1 ; c2" := (bind c1 (fun x => c2))
  (at level 10, x name, c1 at level 100, c2 at level 200) : io_scope.
Notation "'do' ' pat <- c1 ; c2" :=
  (bind c1 (fun x => match x with pat => c2 end))
  (at level 10, pat pattern, c1 at level 100, c2 at level 200) : io_scope.
Notation "'run' c1 ; c2" := (bind c1 (fun _ => c2))
  (at level 10, c1 at level 100, c2 at level 200) : io_scope.
Local Open Scope io_scope.

(** A file object: its identifier and the path it was opened on. *)
Record file := File { f_id : nat; f_path : string }.

(** A mapping: its identifier and the bytes it maps. *)
Record mmap := Mmap { mm_id : nat; mm_buf : bytes }.

(** A fresh identifier, live from now on. *)
Definition alloc (w : world) : nat * world :=
  (w_next w,
   World (w_files w) ({[w_next w]} ∪ w_live w) (S (w_next w)) (w_faulty w) (w_trace w)).

(** [open(path, "wb")]: creates the file or truncates it. *)
Definition open_wb (path : string) : IO file :=
  fun w =>
    let '(i, w1) := alloc w in
    (Ok (File i path),
     World (<[path := []]> (w_files w1)) (w_live w1) (w_next w1) (w_faulty w1)
           (w_trace w1 ++ [EvOpen path])).

(** [open(path, "rb")] *)
Definition open_rb (path : string) : IO file :=
  fun w =>
    match w_files w !! path with
    | None => (Raise (FileNotFoundError path), w)
    | Some _ => let '(i, w1) := alloc w in (Ok (File i path), w1)
    end.

(** [f.write(data)]: file objects are modelled unbuffered, the contents
    after [close] being those of the buffered object. *)
Definition write (f : file) (data : bytes) : IO unit :=
  fun w =>
    if decide (f_id f ∈ w_live w) then
      (Ok tt,
       World (<[f_path f := default [] (w_files w !! f_path f) ++ data]> (w_files w))
             (w_live w) (w_next w) (w_faulty w)
             (w_trace w ++ [EvWrite (f_path f) data]))
    else (Raise (ValueError "I/O operation on closed file"), w).

(** Releasing a resource: a second release is a no-op; a faulty resource
    raises and stays as it is. *)
Definition release (i : nat) : IO unit :=
  fun w =>
    if decide (i ∈ w_live w) then
      if decide (i ∈ w_faulty w) then (Raise (ReleaseError i), w)
      else (Ok tt, World (w_files w) (w_live w ∖ {[i]}) (w_next w) (w_faulty w) (w_trace w))
    else (Ok tt, w).

(** [f.close()] of a file opened for writing.  Failures of the write side
    (a full disk, a missing directory) are not modelled. *)
Definition close_wb (f : file) : IO unit :=
  fun w =>
    (Ok tt, World (w_files w) (w_live w ∖ {[f_id f]}) (w_next w) (w_faulty w)
                  (w_trace w ++ [EvClose (f_path f)])).

(** [mmap.mmap(f.fileno(), 0, access=mmap.ACCESS_READ)]: maps the whole
    file; an empty file cannot be mapped. *)
Definition mmap_mmap (f : file) : IO mmap :=
  fun w =>
    if decide (f_id f ∈ w_live w) then
      match w_files w !! f_path f with
      | Some ((_ :: _) as buf) => let '(i, w1) := alloc w in (Ok (Mmap i buf), w1)
      | _ => (Raise (ValueError "cannot mmap an empty file"), w)
      end
    else (Raise (ValueError "I/O operation on closed file"), w).

(** [with open(path, "wb") as f: body] *)
Definition with_open_wb {A} (path : string) (body : file -> IO A) : IO A :=
  do f <- open_wb path;
  try_finally (body f) (close_wb f).

(** ** Paths *)

(** [s.startswith("/")] and [s.endswith("/")] *)
Definition starts_with_sep (s : string) : bool :=
  match s with
  | EmptyString => false
  | String c _ => Ascii.eqb c "/"
  end.

Fixpoint ends_with_sep (s : string) : bool :=
  match s with
  | EmptyString => false
  | String c EmptyString => Ascii.eqb c "/"
  | String _ s' => ends_with_sep s'
  end.

(** [os.path.join(a, b)] of [posixpath]: an absolute [b] replaces [a]; a
    separator is added unless [a] is empty or ends with one. *)
Definition os_path_join (a b : string) : string :=
  if starts_with_sep b then b
  else if String.eqb a "" || ends_with_sep a then String.append a b
  else String.append a (String.append "/" b).

(** ** The builder *)

(** One item of [seq_dict.items()]: a key and its value. *)
Abbreviation item := (pyobj * seq_value)%type.

Definition keys_must_be_bytes (basename : string) : exn :=
  ValueError (String.append "Keys must be bytes for mmap store: " basename).

Definition inconsistent_key_size (basename : string) : exn :=
  ValueError (String.append "Inconsistent key size in mmap store: " basename).

(** The validation loop over all items. *)
Fixpoint check_keys (basename : string) (key_size : Z) (items : list item)
  : result unit :=
  match items with
  | [] => Ok tt
  | (key, _) :: rest =>
      if negb (is_bytes_like key) then Raise (keys_must_be_bytes basename)
      else
        rbind (py_len key) (fun n =>
        if negb (n =? key_size) then Raise (inconsistent_key_size basename)
        else check_keys basename key_size rest)
  end.

(** [items.sort(key=lambda kv: bytes(kv[0]))]: the keys are computed for
    every item first, then the items are sorted on them with [<], stably. *)
Fixpoint sort_keys (items : list item) : result (list (bytes * item)) :=
  match items with
  | [] => Ok []
  | kv :: rest =>
      rbind (py_bytes (fst kv)) (fun k =>
      rbind (sort_keys rest) (fun ks =>
      Ok ((k, kv) :: ks)))
  end.

(** Insertion before the first item whose key is not below the key of [x]:
    on equal keys the earlier item stays first. *)
Fixpoint sort_insert (x : bytes * item) (l : list (bytes * item))
  : list (bytes * item) :=
  match l with
  | [] => [x]
  | y :: l' =>
      if bytes_ltb (fst y) (fst x) then y :: sort_insert x l' else x :: l
  end.

Fixpoint sort_keyed (l : list (bytes * item)) : list (bytes * item) :=
  match l with
  | [] => []
  | x :: l' => sort_insert x (sort_keyed l')
  end.

Definition items_sort (items : list item) : result (list item) :=
  rbind (sort_keys items) (fun ks => Ok (map snd (sort_keyed ks))).

(** The value of one item as bytes. *)
Definition seq_to_bytes (seq : seq_value) : result bytes :=
  match seq with
  | SeqStr s => encode_ascii s
  | SeqBytes b => Ok b
  end.

(** The write loop over the sorted items. *)
Fixpoint write_records (data_f idx_f : file) (items : list item) (offset : Z)
  : IO unit :=
  match items with
  | [] => ret tt
  | (key, seq) :: rest =>
      do seq_bytes <- lift (seq_to_bytes seq);
      run write data_f seq_bytes;
      do key_bytes <- lift (py_bytes key);
      run write idx_f key_bytes;
      do rec <- lift (OFFSET_STRUCT.pack offset (len seq_bytes));
      run write idx_f rec;
      write_records data_f idx_f rest (offset + len seq_bytes)
  end.

(** The two paths of the store [basename] of [index_folder]. *)
Definition index_path_of (index_folder basename : string) : string :=
  os_path_join index_folder (String.append basename ".mmidx").

Definition data_path_of (index_folder basename : string) : string :=
  os_path_join index_folder (String.append basename ".mmdata").

Definition build_sequence_store (index_folder basename : string)
    (seq_dict : list item) : IO unit :=
  match seq_dict with
  | [] => ret tt
  | (first_key, _) :: _ =>
      let index_path := index_path_of index_folder basename in
      let data_path := data_path_of index_folder basename in
      let items := seq_dict in
      if negb (is_bytes_like first_key) then raise (keys_must_be_bytes basename)
      else
        do key_size <- lift (py_len first_key);
        run lift (check_keys basename key_size items);
        do items <- lift (items_sort items);
        with_open_wb data_path (fun data_f =>
        with_open_wb index_path (fun idx_f =>
          do header <- lift (HEADER_STRUCT.pack MAGIC key_size (len items));
          run write idx_f header;
          write_records data_f idx_f items 0))
  end.

(** ** The reader *)

(** The attributes of an instance. *)
Record SequenceMmapStore := {
  _index_fd : file;
  _data_fd : file;
  _index_mm : mmap;
  _data_mm : mmap;
  _key_size : Z;
  _count : Z;
  _header_size : Z;
  _record_size : Z
}.

Definition invalid_magic (index_path : string) : exn :=
  ValueError (String.append "Invalid mmap index file magic: " index_path).

Definition __init__ (index_path data_path : string) : IO SequenceMmapStore :=
  do index_fd <- open_rb index_path;
  do data_fd <- open_rb data_path;
  do index_mm <- mmap_mmap index_fd;
  do data_mm <- mmap_mmap data_fd;
  do '(magic, key_size, count) <- lift (HEADER_STRUCT.unpack_from (mm_buf index_mm) 0);
  if negb (bytes_eqb magic MAGIC) then raise (invalid_magic index_path)
  else
    ret {| _index_fd := index_fd;
           _data_fd := data_fd;
           _index_mm := index_mm;
           _data_mm := data_mm;
           _key_size := key_size;
           _count := count;
           _header_size := HEADER_STRUCT.size;
           _record_size := key_size + OFFSET_STRUCT.size |}.

Section Queries.
Variable self : SequenceMmapStore.

Definition __len__ : Z := _count self.

Definition _offset_and_length (idx : Z) : result (Z * Z) :=
  let base := _header_size self + idx * _record_size self + _key_size self in
  OFFSET_STRUCT.unpack_from (mm_buf (_index_mm self)) base.

Definition _key_at (idx : Z) : bytes :=
  let base := _header_size self + idx * _record_size self in
  slice (mm_buf (_index_mm self)) base (base + _key_size self).

(** The search loop; [None] when the fuel runs out before the loop ends. *)
Fixpoint _find_index_loop (fuel : nat) (key_bytes : bytes) (lo hi : Z)
  : option Z :=
  if lo <=? hi then
    match fuel with
    | O => None
    | S fuel' =>
        let mid := (lo + hi) / 2 in
        let mid_key := _key_at mid in
        if bytes_eqb mid_key key_bytes then Some mid
        else if bytes_ltb mid_key key_bytes
             then _find_index_loop fuel' key_bytes (mid + 1) hi
             else _find_index_loop fuel' key_bytes lo (mid - 1)
    end
  else Some (-1).

(** A query that is no byte sequence, or not of the key size, is a miss.
    The loop runs on the range [0 .. count - 1], which each iteration
    shortens: [count] iterations are enough (lemma [_find_index_total]). *)
Definition _find_index (key : pyobj) : Z :=
  match key with
  | PyBytes key_bytes =>
      if negb (len key_bytes =? _key_size self) then -1
      else
        let lo := 0 in
        let hi := _count self - 1 in
        default (-1) (_find_index_loop (Z.to_nat (_count self)) key_bytes lo hi)
  | _ => -1
  end.

Definition __contains__ (key : pyobj) : bool :=
  _find_index key >=? 0.

Definition get (key : pyobj) (default : pyobj) : result pyobj :=
  let idx := _find_index key in
  if idx <? 0 then Ok default
  else
    rbind (_offset_and_length idx) (fun '(offset, length) =>
    rbind (decode_ascii (slice (mm_buf (_data_mm self)) offset (offset + length)))
          (fun s => Ok (PyStr s))).

Definition __getitem__ (key : pyobj) : result pyobj :=
  rbind (get key PyNone) (fun value =>
  match value with
  | PyNone => Raise (KeyError key)
  | _ => Ok value
  end).

Definition close : IO unit :=
  run try_finally (release (mm_id (_index_mm self)))
                  (release (f_id (_index_fd self)));
  try_finally (release (mm_id (_data_mm self)))
              (release (f_id (_data_fd self))).
End Queries.

(** ** Concrete runs *)

(** No file, no live resource. *)
Definition world0 : world := World ∅ ∅ 0 ∅ [].

(** A [bytes] literal and a [str] literal. *)
Definition b (s : string) : bytes := list_byte_of_string s.
Definition text (s : string) : pystr := map byte.unsigned (list_byte_of_string s).

(** The world after building [seq_dict] as store [seqs] of folder [dir],
    starting from [world0]. *)
Definition built (seq_dict : list item) : world :=
  snd (build_sequence_store "dir" "seqs" seq_dict world0).

(** * The vocabulary of the properties *)

(** ** The sorted items *)

Definition key_le (x y : bytes * item) : Prop :=
  bytes_compare (fst y) (fst x) <> Lt.

Definition key_lt (x y : bytes * item) : Prop :=
  bytes_compare (fst x) (fst y) = Lt.

Definition bytes_lt (a c : bytes) : Prop := bytes_compare a c = Lt.

(** The bytes of a key that passed the validation. *)
Definition key_of (it : item) : bytes :=
  match fst it with
  | PyBytes k => k
  | _ => []
  end.

(** The key of the item is a byte sequence of [key_size] bytes. *)
Definition bytes_key (key_size : Z) (it : item) : Prop :=
  fst it = PyBytes (key_of it) /\ len (key_of it) = key_size.

(** Some key is no byte sequence, or two keys differ in length. *)
Definition invalid_keys (seq_dict : list item) : Prop :=
  (exists key seq, In (key, seq) seq_dict /\ is_bytes_like key = false) \/
  (exists k1 seq1 k2 seq2,
     In (PyBytes k1, seq1) seq_dict /\ In (PyBytes k2, seq2) seq_dict /\
     len k1 <> len k2).

Definition decorate (items : list item) : list (bytes * item) :=
  map (fun it => (key_of it, it)) items.

(** What [items_sort] returns on validated items. *)
Definition sorted_items (items : list item) : list item :=
  map snd (sort_keyed (decorate items)).

(** ** What the write loop hands to the two files *)

(** Record by record: the value bytes, the key bytes, and the packed offset
    and length, as the loop computes them. *)
Fixpoint pack_items (items : list item) (offset : Z)
  : result (list (bytes * bytes * bytes)) :=
  match items with
  | [] => Ok []
  | (key, seq) :: rest =>
      rbind (seq_to_bytes seq) (fun v =>
      rbind (py_bytes key) (fun k =>
      rbind (OFFSET_STRUCT.pack offset (len v)) (fun r =>
      rbind (pack_items rest (offset + len v)) (fun recs =>
      Ok ((v, k, r) :: recs)))))
  end.

Definition rec_key (rec : bytes * bytes * bytes) : bytes := snd (fst rec).

(** The contents of the data file, and of the index file after its header. *)
Definition data_bytes (recs : list (bytes * bytes * bytes)) : bytes :=
  flat_map (fun '(v, _, _) => v) recs.

Definition index_records (recs : list (bytes * bytes * bytes)) : bytes :=
  flat_map (fun '(_, k, r) => k ++ r) recs.

(** The writes of the loop, in the order of the calls. *)
Definition record_events (data_path index_path : string)
    (recs : list (bytes * bytes * bytes)) : list event :=
  flat_map (fun '(v, k, r) =>
              [EvWrite data_path v; EvWrite index_path k; EvWrite index_path r])
           recs.

(** Records of one size: each key has [key_size] bytes and each packed
    offset and length 12. *)
Definition rec_sized (key_size : Z) (rec : bytes * bytes * bytes) : Prop :=
  len (rec_key rec) = key_size /\ len (snd rec) = OFFSET_STRUCT.size.

(** Every write to the index file comes after every write to the data
    file. *)
Definition data_written_first (data_path index_path : string)
    (trace : list event) : Prop :=
  forall i j x y,
    trace !! i = Some (EvWrite index_path x) ->
    trace !! j = Some (EvWrite data_path y) ->
    (j < i)%nat.

(** ** Worlds *)

(** The world after [open(path, "wb")]. *)
Definition opened (path : string) (w : world) : world :=
  World (<[path := []]> (w_files w)) ({[w_next w]} ∪ w_live w) (S (w_next w))
        (w_faulty w) (w_trace w ++ [EvOpen path]).

(** The world after a build that ran to its end. *)
Definition built_world (w : world) (data_path index_path : string)
    (header : bytes) (recs : list (bytes * bytes * bytes)) : world :=
  World (<[index_path := header ++ index_records recs]>
           (<[data_path := data_bytes recs]> (w_files w)))
        ((({[S (w_next w)]} ∪ ({[w_next w]} ∪ w_live w)) ∖ {[S (w_next w)]})
           ∖ {[w_next w]})
        (S (S (w_next w))) (w_faulty w)
        (w_trace w ++
         [EvOpen data_path; EvOpen index_path; EvWrite index_path header] ++
         record_events data_path index_path recs ++
         [EvClose index_path; EvClose data_path]).

(** The world after the two files were opened and mapped: four resources
    more are live. *)
Definition mapped (w : world) : world :=
  World (w_files w)
        ({[S (S (S (w_next w)))]} ∪ ({[S (S (w_next w))]} ∪
           ({[S (w_next w)]} ∪ ({[w_next w]} ∪ w_live w))))
        (S (S (S (S (w_next w))))) (w_faulty w) (w_trace w).

(** ** Stores *)

(** The store that [__init__] returns in world [w] on an index file [ibuf]
    with a good header and a data file [dbuf]. *)
Definition opened_store (index_path data_path : string) (w : world)
    (ibuf dbuf : bytes) (key_size count : Z) : SequenceMmapStore :=
  {| _index_fd := File (w_next w) index_path;
     _data_fd := File (S (w_next w)) data_path;
     _index_mm := Mmap (S (S (w_next w))) ibuf;
     _data_mm := Mmap (S (S (S (w_next w)))) dbuf;
     _key_size := key_size;
     _count := count;
     _header_size := HEADER_STRUCT.size;
     _record_size := key_size + OFFSET_STRUCT.size |}.

(** A store that a build wrote and [__init__] opened. *)
Definition built_store (index_folder basename : string) (seq_dict : list item)
    (w : world) (self : SequenceMmapStore) : Prop :=
  exists w1 w2,
    build_sequence_store index_folder basename seq_dict w = (Ok tt, w1) /\
    __init__ (index_path_of index_folder basename)
             (data_path_of index_folder basename) w1 = (Ok self, w2).

(** The reader's view of a pair of files holding [recs]: the header, then
    equally sized records with strictly increasing keys, each pointing at
    its value in the data. *)
Record store_layout (self : SequenceMmapStore)
    (recs : list (bytes * bytes * bytes)) : Prop := {
  sl_index : exists header,
    len header = HEADER_STRUCT.size /\
    mm_buf (_index_mm self) = header ++ index_records recs;
  sl_data : mm_buf (_data_mm self) = data_bytes recs;
  sl_header_size : _header_size self = HEADER_STRUCT.size;
  sl_record_size : _record_size self = _key_size self + OFFSET_STRUCT.size;
  sl_count : _count self = len recs;
  sl_sized : Forall (rec_sized (_key_size self)) recs;
  sl_packed : forall n v k r,
    recs !! n = Some (v, k, r) ->
    r = le_split 8 (len (data_bytes (take n recs))) ++ le_split 4 (len v) /\
    0 <= len (data_bytes (take n recs)) < 2 ^ 64 /\
    0 <= len v < 2 ^ 32;
  sl_sorted : StronglySorted bytes_lt (map rec_key recs)
}.

(** ** Values *)

(** The value as the Python object the caller supplied. *)
Definition value_obj (seq : seq_value) : pyobj :=
  match seq with
  | SeqStr s => PyStr s
  | SeqBytes v => PyBytes v
  end.

(** Every character, or byte, of the value is in 0..127. *)
Definition ascii_value (seq : seq_value) : Prop :=
  match seq with
  | SeqStr s => Forall (fun c => 0 <= c < 128) s
  | SeqBytes v => Forall (fun x => byte.unsigned x < 128) v
  end.

(** The text with the characters of the value. *)
Definition value_text (seq : seq_value) : pystr :=
  match seq with
  | SeqStr s => s
  | SeqBytes v => map byte.unsigned v
  end.

Definition value_len (seq : seq_value) : Z :=
  match seq with
  | SeqStr s => len s
  | SeqBytes v => len v
  end.

(** The length of the data file of the items. *)
Definition data_len (items : list item) : Z :=
  fold_right (fun it acc => value_len (snd it) + acc) 0 items.

(** The value is the empty text or the empty byte sequence. *)
Definition empty_value (seq : seq_value) : Prop :=
  seq = SeqStr [] \/ seq = SeqBytes [].

(** ** Example mappings and their stores *)

(** The store of [seq_dict] as [__init__] returns it after the build, for
    the key size and count of its header. *)
Definition reopened (seq_dict : list item) (key_size count : Z)
  : SequenceMmapStore :=
  opened_store (index_path_of "dir" "seqs") (data_path_of "dir" "seqs")
    (built seq_dict)
    (default [] (w_files (built seq_dict) !! index_path_of "dir" "seqs"))
    (default [] (w_files (built seq_dict) !! data_path_of "dir" "seqs"))
    key_size count.

(** Three records with text values, given out of order. *)
Definition scenario : list item :=
  [ (PyBytes (b "AAAA"), SeqStr (text "hello"));
    (PyBytes (b "ZZZZ"), SeqStr (text "world"));
    (PyBytes (b "MMMM"), SeqStr (text "mid")) ].

Definition scenario_world : world := built scenario.
Definition scenario_self : SequenceMmapStore := reopened scenario 4 3.

(** A key with an empty value next to one with a value. *)
Definition with_empty : list item :=
  [ (PyBytes (b "bb"), SeqStr (text "x"));
    (PyBytes (b "aa"), SeqBytes []) ].

Definition with_empty_world : world := built with_empty.
Definition with_empty_self : SequenceMmapStore := reopened with_empty 2 2.

(** One value that is the byte [0x80]. *)
Definition high_byte : list item := [(PyBytes (b "k"), SeqBytes [Byte.x80])].

Definition high_byte_world : world := built high_byte.
Definition high_byte_self : SequenceMmapStore := reopened high_byte 1 1.

(** A bytes value with a byte above 127 next to a text value. *)
Definition with_high_byte : list item :=
  [ (PyBytes (b "bb"), SeqStr (text "x"));
    (PyBytes (b "aa"), SeqBytes [Byte.xff; Byte.x41]) ].

Definition with_high_byte_world : world := built with_high_byte.
Definition with_high_byte_self : SequenceMmapStore := reopened with_high_byte 2 2.

(** One ASCII value given as bytes. *)
Definition ascii_bytes : list item := [(PyBytes (b "k"), SeqBytes (b "A"))].

Definition ascii_bytes_self : SequenceMmapStore := reopened ascii_bytes 1 1.

(** One text value with a character outside ASCII. *)
Definition latin_text : list item := [(PyBytes (b "k"), SeqStr [233])].

(** An index file whose magic tag starts with a wrong byte, and a data
    file. *)
Definition bad_magic_world : world :=
  World (<["seqs.mmidx"%string := b "XLTRAMM1" ++ le_split 4 4 ++ le_split 8 0]>
           (<["seqs.mmdata"%string := b "x"]> ∅))
        ∅ 0 ∅ [].

(** An index file shorter than a header. *)
Definition short_index_world : world :=
  World (<["seqs.mmidx"%string := b "XLTRAMM1"]>
           (<["seqs.mmdata"%string := b "x"]> ∅))
        ∅ 0 ∅ [].

(** The store of the scenario, opened, in a world where releasing its index
    mapping raises. *)
Definition faulty_world : world :=
  let w := mapped scenario_world in
  World (w_files w) (w_live w) (w_next w) {[mm_id (_index_mm scenario_self)]}
        (w_trace w).

(** ** Worlds a run can reach *)

(** Every live resource was handed out by [alloc]: the identifiers from
    [w_next] on are fresh. *)
Definition fresh_ids (w : world) : Prop :=
  forall i, i ∈ w_live w -> (i < w_next w)%nat.

(** [w'] is [w] after writes to open files at [paths]: the same resources,
    the other files as they were, the files that were there longer or as
    they were, and the log longer by these writes. *)
Definition written (paths : list string) (w w' : world) : Prop :=
  w_live w' = w_live w /\ w_next w' = w_next w /\ w_faulty w' = w_faulty w /\
  (forall p, p ∉ paths -> w_files w' !! p = w_files w !! p) /\
  (forall p d, w_files w !! p = Some d ->
     exists d', w_files w' !! p = Some (d ++ d')) /\
  (exists t,
     w_trace w' = w_trace w ++ t /\
     forall ev, In ev t ->
       exists path data, ev = EvWrite path data /\ path ∈ paths).

(** The world with [data] in the file at [path]. *)
Definition put_file (path : string) (data : bytes) (w : world) : world :=
  World (<[path := data]> (w_files w)) (w_live w) (w_next w) (w_faulty w)
        (w_trace w).

(** The world after the two [with] blocks of the builder are left, [w1]
    being the world at the end of their body. *)
Definition closed_both (data_f idx_f : file) (w1 : world) : world :=
  World (w_files w1) ((w_live w1 ∖ {[f_id idx_f]}) ∖ {[f_id data_f]}) (w_next w1)
        (w_faulty w1)
        ((w_trace w1 ++ [EvClose (f_path idx_f)]) ++ [EvClose (f_path data_f)]).

(** The value can be written: a text is ASCII; a byte sequence is written
    as it is. *)
Definition encodable (seq : seq_value) : Prop :=
  match seq with
  | SeqStr s => Forall (fun c => 0 <= c < 128) s
  | SeqBytes _ => True
  end.

(** ** More example worlds and mappings *)

(** A world with a file that belongs to no store, and with one resource
    open. *)
Definition busy_world : world :=
  World (<["dir/notes.txt"%string := b "keep"]> ∅) {[0%nat]} 1 ∅ [].

(** A world with an index file and no data file. *)
Definition index_only_world : world :=
  World (<["seqs.mmidx"%string := MAGIC ++ le_split 4 4 ++ le_split 8 0]> ∅)
        ∅ 0 ∅ [].

(** The items of the scenario in another order. *)
Definition scenario_reordered : list item :=
  [ (PyBytes (b "MMMM"), SeqStr (text "mid"));
    (PyBytes (b "AAAA"), SeqStr (text "hello"));
    (PyBytes (b "ZZZZ"), SeqStr (text "world")) ].

(** One key whose value is empty. *)
Definition only_empty : list item := [(PyBytes (b "k"), SeqBytes [])].

(** ** Proof steps *)

(** The keys of a literal mapping are pairwise distinct. *)
Ltac distinct_keys :=
  apply NoDup_ListNoDup;
  repeat (constructor; [vm_compute; intuition discriminate|]);
  constructor.

(** The resource tested by the next [decide] is live. *)
Ltac decide_live :=
  match goal with
  | |- context [decide (?x ∈ ?s)] =>
      let Hnl := fresh "Hnl" in
      destruct (decide (x ∈ s)) as [_|Hnl]; [|exfalso; apply Hnl; set_solver]
  end.

(** * Properties *)

(** ** Byte order *)

Lemma byte_compare_refl x : byte.compare x x = Eq.
Proof. unfold byte.compare. apply Z.compare_refl. Qed.

Lemma byte_compare_eq x y : byte.compare x y = Eq -> x = y.
Proof.
  unfold byte.compare. intros H. apply Z.compare_eq in H.
  now apply byte.unsigned_inj.
Qed.

Lemma bytes_compare_refl a : bytes_compare a a = Eq.
Proof.
  induction a as [|x a IH]; simpl; [reflexivity|].
  now rewrite byte_compare_refl.
Qed.

Lemma bytes_compare_eq a : forall c, bytes_compare a c = Eq -> a = c.
Proof.
  induction a as [|x a IH]; intros [|y c]; simpl; try discriminate; auto.
  destruct (byte.compare x y) eqn:E; try discriminate.
  intros H. apply byte_compare_eq in E. subst y. f_equal. auto.
Qed.

Lemma bytes_compare_antisym a : forall c,
  bytes_compare c a = CompOpp (bytes_compare a c).
Proof.
  induction a as [|x a IH]; intros [|y c]; simpl; try reflexivity.
  unfold byte.compare. rewrite (Z.compare_antisym (byte.unsigned x)).
  destruct (byte.unsigned x ?= byte.unsigned y); simpl; auto.
Qed.

Lemma bytes_compare_trans a : forall c d,
  bytes_compare a c = Lt -> bytes_compare c d = Lt -> bytes_compare a d = Lt.
Proof.
  induction a as [|x a IH]; intros [|y c] [|z d]; simpl; try discriminate; auto.
  unfold byte.compare.
  destruct (Z.compare_spec (byte.unsigned x) (byte.unsigned y)) as [E1|E1|E1];
    try discriminate;
    destruct (Z.compare_spec (byte.unsigned y) (byte.unsigned z)) as [E2|E2|E2];
    try discriminate; intros H1 H2.
  - rewrite E1, E2, Z.compare_refl. eauto.
  - rewrite E1. now apply Z.compare_lt_iff in E2 as ->.
  - rewrite <- E2. now apply Z.compare_lt_iff in E1 as ->.
  - assert (byte.unsigned x < byte.unsigned z) as E by lia.
    now apply Z.compare_lt_iff in E as ->.
Qed.

Lemma bytes_eqb_eq a c : bytes_eqb a c = true <-> a = c.
Proof.
  unfold bytes_eqb. split.
  - destruct (bytes_compare a c) eqn:E; try discriminate.
    intros _. now apply bytes_compare_eq.
  - intros ->. now rewrite bytes_compare_refl.
Qed.

Lemma bytes_compare_refl_eqb a : bytes_eqb a a = true.
Proof. now apply bytes_eqb_eq. Qed.

Lemma bytes_ltb_lt a c : bytes_ltb a c = true <-> bytes_compare a c = Lt.
Proof. unfold bytes_ltb. destruct (bytes_compare a c); split; congruence. Qed.

Lemma bytes_lt_irrefl a : bytes_compare a a <> Lt.
Proof. now rewrite bytes_compare_refl. Qed.

(** ** The search ends *)

(** On every store, whatever its bytes, the loop ends within
    [hi - lo + 1] iterations: the fuel of [_find_index] is never used up. *)
Lemma _find_index_loop_total self key_bytes : forall fuel lo hi,
  hi - lo + 1 <= Z.of_nat fuel ->
  exists r, _find_index_loop self fuel key_bytes lo hi = Some r.
Proof.
  induction fuel as [|fuel IH]; intros lo hi Hfuel; cbn [_find_index_loop].
  - destruct (Z.leb_spec lo hi); [lia|]. eauto.
  - destruct (Z.leb_spec lo hi) as [Hle|Hgt]; [|eauto].
    assert (lo <= (lo + hi) / 2 <= hi) as Hmid.
    { split; [apply Z.div_le_lower_bound|apply Z.div_le_upper_bound]; lia. }
    destruct (bytes_eqb _ key_bytes); [eauto|].
    destruct (bytes_ltb _ key_bytes); apply IH; lia.
Qed.

Lemma _find_index_total self key_bytes :
  exists r,
    _find_index_loop self (Z.to_nat (_count self)) key_bytes 0 (_count self - 1)
    = Some r.
Proof. apply _find_index_loop_total. lia. Qed.

(** ** The sort *)

Lemma key_le_trans x y z : key_le x y -> key_le y z -> key_le x z.
Proof.
  unfold key_le. intros H1 H2 H3.
  destruct (bytes_compare (fst y) (fst x)) eqn:E1; try congruence.
  - apply bytes_compare_eq in E1. congruence.
  - rewrite (bytes_compare_antisym (fst x) (fst y)) in E1.
    destruct (bytes_compare (fst x) (fst y)) eqn:E; try discriminate.
    apply H2. eapply bytes_compare_trans; eauto.
Qed.

Lemma sort_insert_perm x l : Permutation (sort_insert x l) (x :: l).
Proof.
  induction l as [|y l IH]; simpl; [reflexivity|].
  destruct (bytes_ltb (fst y) (fst x)); [|reflexivity].
  rewrite IH. apply perm_swap.
Qed.

Lemma sort_keyed_perm l : Permutation (sort_keyed l) l.
Proof.
  induction l as [|x l IH]; simpl; [reflexivity|].
  rewrite sort_insert_perm. now constructor.
Qed.

Lemma sort_insert_sorted x l :
  StronglySorted key_le l -> StronglySorted key_le (sort_insert x l).
Proof.
  induction 1 as [|y l Hs IH Hall]; simpl.
  - repeat constructor.
  - destruct (bytes_ltb (fst y) (fst x)) eqn:E.
    + constructor; [assumption|].
      rewrite sort_insert_perm. constructor; [|assumption].
      apply bytes_ltb_lt in E. unfold key_le.
      rewrite (bytes_compare_antisym (fst y) (fst x)), E. discriminate.
    + assert (key_le x y) as Hxy.
      { unfold key_le. intros H. apply bytes_ltb_lt in H. congruence. }
      constructor; [now constructor|].
      constructor; [assumption|].
      eapply Forall_impl; [exact Hall|].
      intros z Hz. eapply key_le_trans; eauto.
Qed.

Lemma sort_keyed_sorted l : StronglySorted key_le (sort_keyed l).
Proof.
  induction l as [|x l IH]; simpl; [constructor|].
  now apply sort_insert_sorted.
Qed.

(** With pairwise distinct keys the sorted order is strict. *)
Lemma sorted_strict l :
  NoDup (map fst l) -> StronglySorted key_le l -> StronglySorted key_lt l.
Proof.
  induction l as [|x l IH]; intros Hnd Hs; [constructor|].
  simpl in Hnd. apply NoDup_cons in Hnd as [Hx Hnd].
  apply StronglySorted_inv in Hs as [Hs Hall].
  constructor; [auto|].
  apply Forall_forall. intros y Hy.
  rewrite Forall_forall in Hall. specialize (Hall y Hy).
  unfold key_le in Hall. unfold key_lt.
  rewrite (bytes_compare_antisym (fst x) (fst y)) in Hall.
  destruct (bytes_compare (fst x) (fst y)) eqn:E; simpl in Hall; try congruence.
  apply bytes_compare_eq in E. exfalso. apply Hx.
  rewrite E. apply list_elem_of_In, in_map, list_elem_of_In. assumption.
Qed.

(** ** Packing and unpacking *)

Lemma pack_uint_ok n z bs :
  pack_uint n z = Ok bs ->
  bs = le_split n z /\ 0 <= z < 2 ^ (8 * Z.of_nat n).
Proof.
  unfold pack_uint.
  destruct (0 <=? z) eqn:E1; destruct (z <? 2 ^ (8 * Z.of_nat n)) eqn:E2;
    simpl; intros H; inversion H; subst.
  split; [reflexivity|]. lia.
Qed.

Lemma pack_uint_fits n z :
  0 <= z < 2 ^ (8 * Z.of_nat n) -> pack_uint n z = Ok (le_split n z).
Proof.
  intros [H1 H2]. unfold pack_uint.
  apply Z.leb_le in H1 as ->. now apply Z.ltb_lt in H2 as ->.
Qed.

Lemma le_combine_split_small n z :
  0 <= z < 2 ^ (8 * Z.of_nat n) -> le_combine (le_split n z) = z.
Proof.
  intros H. rewrite le_combine_split.
  apply Z.mod_small. now rewrite Z.mul_comm.
Qed.

Lemma len_app {A} (l k : list A) : len (l ++ k) = len l + len k.
Proof. unfold len. rewrite length_app. lia. Qed.

Lemma len_cons {A} (x : A) (l : list A) : len (x :: l) = 1 + len l.
Proof. unfold len. simpl length. lia. Qed.

Lemma len_nonneg {A} (l : list A) : 0 <= len l.
Proof. unfold len. lia. Qed.

Lemma offset_pack_ok offset length r :
  OFFSET_STRUCT.pack offset length = Ok r ->
  r = le_split 8 offset ++ le_split 4 length /\
  0 <= offset < 2 ^ 64 /\ 0 <= length < 2 ^ 32.
Proof.
  unfold OFFSET_STRUCT.pack.
  destruct (pack_uint 8 offset) as [o|] eqn:E1; simpl; [|discriminate].
  destruct (pack_uint 4 length) as [l|] eqn:E2; simpl; [|discriminate].
  apply pack_uint_ok in E1 as [-> H1]. apply pack_uint_ok in E2 as [-> H2].
  intros H; inversion H; subst. auto.
Qed.

Lemma header_pack_ok magic key_size count h :
  HEADER_STRUCT.pack magic key_size count = Ok h ->
  h = resize 8 "000"%byte magic ++ le_split 4 key_size ++ le_split 8 count /\
  0 <= key_size < 2 ^ 32 /\ 0 <= count < 2 ^ 64.
Proof.
  unfold HEADER_STRUCT.pack.
  destruct (pack_uint 4 key_size) as [o|] eqn:E1; simpl; [|discriminate].
  destruct (pack_uint 8 count) as [l|] eqn:E2; simpl; [|discriminate].
  apply pack_uint_ok in E1 as [-> H1]. apply pack_uint_ok in E2 as [-> H2].
  intros H; inversion H; subst. auto.
Qed.

(** ** What the write loop appends *)

Lemma write_live f data w :
  f_id f ∈ w_live w ->
  write f data w =
    (Ok tt,
     World (<[f_path f := default [] (w_files w !! f_path f) ++ data]> (w_files w))
           (w_live w) (w_next w) (w_faulty w)
           (w_trace w ++ [EvWrite (f_path f) data])).
Proof. intros H. unfold write. now rewrite decide_True. Qed.

Lemma write_records_ok data_f idx_f items : forall offset recs w d i,
  f_path data_f <> f_path idx_f ->
  f_id data_f ∈ w_live w -> f_id idx_f ∈ w_live w ->
  w_files w !! f_path data_f = Some d ->
  w_files w !! f_path idx_f = Some i ->
  pack_items items offset = Ok recs ->
  write_records data_f idx_f items offset w =
    (Ok tt,
     World (<[f_path idx_f := i ++ index_records recs]>
              (<[f_path data_f := d ++ data_bytes recs]> (w_files w)))
           (w_live w) (w_next w) (w_faulty w)
           (w_trace w ++ record_events (f_path data_f) (f_path idx_f) recs)).
Proof.
  induction items as [|[key seq] rest IH]; intros offset recs w d i Hne Hd Hi Fd Fi.
  - simpl. intros [= <-]. simpl. unfold ret. rewrite !app_nil_r.
    rewrite (insert_id _ _ _ Fd), (insert_id _ _ _ Fi). now destruct w.
  - cbn [write_records pack_items].
    destruct (seq_to_bytes seq) as [v|] eqn:Ev; cbn [rbind]; [|discriminate].
    destruct (py_bytes key) as [k|] eqn:Ek; cbn [rbind]; [|discriminate].
    destruct (OFFSET_STRUCT.pack offset (len v)) as [r|] eqn:Er; cbn [rbind];
      [|discriminate].
    destruct (pack_items rest (offset + len v)) as [recs'|] eqn:Ep; cbn [rbind];
      [|discriminate].
    intros [= <-].
    unfold bind, lift. cbv beta iota.
    rewrite write_live by assumption. cbv beta iota.
    rewrite write_live by assumption. cbv beta iota. rewrite Er.
    rewrite write_live by assumption. cbn [w_files w_live w_next w_faulty w_trace].
    rewrite Fd. cbn [default from_option id].
    rewrite (lookup_insert_ne _ (f_path data_f) (f_path idx_f)) by assumption.
    rewrite Fi. cbn [default from_option id].
    rewrite lookup_insert_eq. cbn [default from_option id].
    rewrite (IH (offset + len v) recs' _ (d ++ v) ((i ++ k) ++ r));
      cbn [w_files w_live w_next w_faulty w_trace]; try assumption.
    + f_equal. f_equal.
      * apply map_eq. intros p.
        destruct (decide (p = f_path idx_f)) as [->|Hp1].
        { rewrite !lookup_insert_eq. f_equal. cbn [index_records flat_map].
          now rewrite <- !app_assoc. }
        destruct (decide (p = f_path data_f)) as [->|Hp2].
        { assert (f_path idx_f <> f_path data_f) as Hne' by congruence.
          repeat (rewrite (lookup_insert_ne _ (f_path idx_f) (f_path data_f))
                    by assumption).
          rewrite !lookup_insert_eq. f_equal. cbn [data_bytes flat_map].
          now rewrite <- !app_assoc. }
        repeat first
          [ rewrite (lookup_insert_ne _ (f_path idx_f) p) by congruence
          | rewrite (lookup_insert_ne _ (f_path data_f) p) by congruence ].
        reflexivity.
      * cbn [record_events flat_map]. rewrite <- !app_assoc. reflexivity.
    + rewrite !(lookup_insert_ne _ (f_path idx_f)) by congruence.
      now rewrite lookup_insert_eq.
    + now rewrite lookup_insert_eq.
Qed.

Lemma write_records_raise data_f idx_f items : forall offset e w,
  f_id data_f ∈ w_live w -> f_id idx_f ∈ w_live w ->
  pack_items items offset = Raise e ->
  fst (write_records data_f idx_f items offset w) = Raise e.
Proof.
  induction items as [|[key seq] rest IH]; intros offset e w Hd Hi;
    cbn [write_records pack_items]; [discriminate|].
  unfold bind, lift.
  destruct (seq_to_bytes seq) as [v|] eqn:Ev; cbn [rbind fst];
    [|now intros [= <-]].
  rewrite write_live by assumption. cbv beta iota.
  destruct (py_bytes key) as [k|] eqn:Ek; cbn [rbind fst]; [|now intros [= <-]].
  rewrite write_live by assumption. cbv beta iota.
  destruct (OFFSET_STRUCT.pack offset (len v)) as [r|] eqn:Er; cbn [rbind fst];
    [|now intros [= <-]].
  rewrite write_live by assumption. cbv beta iota.
  destruct (pack_items rest (offset + len v)) as [recs'|] eqn:Ep; cbn [rbind];
    [discriminate|].
  intros [= <-]. now apply IH.
Qed.

(** ** The two paths of a store *)

Lemma append_inv_head s : forall t1 t2,
  String.append s t1 = String.append s t2 -> t1 = t2.
Proof.
  induction s as [|c s IH]; simpl; intros t1 t2 H; [assumption|].
  injection H as H. auto.
Qed.

Lemma starts_with_sep_basename base suffix1 suffix2 :
  starts_with_sep suffix1 = false -> starts_with_sep suffix2 = false ->
  starts_with_sep (String.append base suffix1) =
  starts_with_sep (String.append base suffix2).
Proof.
  intros H1 H2. destruct base as [|c base].
  - change (starts_with_sep suffix1 = starts_with_sep suffix2). congruence.
  - reflexivity.
Qed.

Lemma paths_differ index_folder basename :
  data_path_of index_folder basename <> index_path_of index_folder basename.
Proof.
  unfold data_path_of, index_path_of, os_path_join.
  rewrite (starts_with_sep_basename basename ".mmdata" ".mmidx") by reflexivity.
  destruct (starts_with_sep (String.append basename ".mmidx"));
    [|destruct (String.eqb index_folder "" || ends_with_sep index_folder)];
    intros H; repeat apply append_inv_head in H; discriminate.
Qed.

(** ** What a build does *)

Lemma try_finally_close_fst {A} (body : IO A) f w :
  fst (try_finally body (close_wb f) w) = fst (body w).
Proof. unfold try_finally, close_wb. now destruct (body w). Qed.

Lemma with_open_wb_fst {A} path (body : file -> IO A) w :
  fst (with_open_wb path body w) =
  fst (body (File (w_next w) path) (opened path w)).
Proof.
  unfold with_open_wb, bind, open_wb, alloc. cbv beta iota.
  now rewrite try_finally_close_fst.
Qed.

Lemma build_run index_folder basename first_key v0 rest key_size sorted header recs w :
  is_bytes_like first_key = true ->
  py_len first_key = Ok key_size ->
  check_keys basename key_size ((first_key, v0) :: rest) = Ok tt ->
  items_sort ((first_key, v0) :: rest) = Ok sorted ->
  HEADER_STRUCT.pack MAGIC key_size (len sorted) = Ok header ->
  pack_items sorted 0 = Ok recs ->
  build_sequence_store index_folder basename ((first_key, v0) :: rest) w =
    (Ok tt, built_world w (data_path_of index_folder basename)
                        (index_path_of index_folder basename) header recs).
Proof.
  intros Hb Hl Hc Hs Hh Hp.
  pose proof (paths_differ index_folder basename) as Hne.
  unfold build_sequence_store. rewrite Hb. cbn [negb].
  unfold bind at 1. unfold lift at 1. rewrite Hl.
  unfold bind at 1. unfold lift at 1. rewrite Hc.
  unfold bind at 1. unfold lift at 1. rewrite Hs.
  unfold with_open_wb, bind, open_wb, alloc, try_finally, lift.
  cbv beta iota. rewrite Hh.
  set (dp := data_path_of index_folder basename) in *.
  set (ip := index_path_of index_folder basename) in *.
  cbn [w_files w_live w_next w_faulty w_trace].
  rewrite write_live by (cbn [f_id w_live]; set_solver).
  cbv beta iota. cbn [f_path f_id w_files w_live w_next w_faulty w_trace].
  rewrite lookup_insert_eq. cbn [default from_option id app].
  rewrite (write_records_ok _ _ sorted 0 recs _ [] header); try assumption;
    cbn [f_path f_id w_files w_live w_next w_faulty w_trace].
  - unfold close_wb, built_world.
    cbn [f_path f_id w_files w_live w_next w_faulty w_trace].
    f_equal. f_equal.
    + apply map_eq. intros p.
      destruct (decide (p = ip)) as [->|Hp1].
      { now rewrite !lookup_insert_eq. }
      destruct (decide (p = dp)) as [->|Hp2].
      { repeat first
          [ rewrite (lookup_insert_ne _ ip dp) by congruence
          | rewrite lookup_insert_eq ].
        reflexivity. }
      repeat first
        [ rewrite (lookup_insert_ne _ ip p) by congruence
        | rewrite (lookup_insert_ne _ dp p) by congruence ].
      reflexivity.
    + rewrite <- !app_assoc. reflexivity.
  - set_solver.
  - set_solver.
  - repeat (rewrite (lookup_insert_ne _ ip dp) by congruence).
    now rewrite lookup_insert_eq.
  - now rewrite lookup_insert_eq.
Qed.

(** The outcome of a build on a non-empty mapping whose first key is a byte
    sequence: the first step that raises decides it. *)
Lemma build_result index_folder basename first_key v0 rest w :
  is_bytes_like first_key = true ->
  fst (build_sequence_store index_folder basename ((first_key, v0) :: rest) w) =
    rbind (py_len first_key) (fun key_size =>
    rbind (check_keys basename key_size ((first_key, v0) :: rest)) (fun _ =>
    rbind (items_sort ((first_key, v0) :: rest)) (fun sorted =>
    rbind (HEADER_STRUCT.pack MAGIC key_size (len sorted)) (fun _ =>
    rbind (pack_items sorted 0) (fun _ => Ok tt))))).
Proof.
  intros Hb.
  destruct (py_len first_key) as [key_size|e] eqn:Hl; cbn [rbind];
    [|unfold build_sequence_store, bind, lift; rewrite Hb, Hl; reflexivity].
  destruct (check_keys basename key_size ((first_key, v0) :: rest)) as [[]|e] eqn:Hc;
    cbn [rbind];
    [|unfold build_sequence_store, bind, lift; rewrite Hb, Hl, Hc; reflexivity].
  destruct (items_sort ((first_key, v0) :: rest)) as [sorted|e] eqn:Hs;
    cbn [rbind];
    [|unfold build_sequence_store, bind, lift; rewrite Hb, Hl, Hc, Hs; reflexivity].
  destruct (HEADER_STRUCT.pack MAGIC key_size (len sorted)) as [header|e] eqn:Hh;
    cbn [rbind].
  - destruct (pack_items sorted 0) as [recs|e] eqn:Hp.
    + erewrite build_run by eassumption. reflexivity.
    + cbn [rbind]. unfold build_sequence_store. rewrite Hb. cbn [negb].
      unfold bind at 1. unfold lift at 1. rewrite Hl.
      unfold bind at 1. unfold lift at 1. rewrite Hc.
      unfold bind at 1. unfold lift at 1. rewrite Hs.
      rewrite !with_open_wb_fst.
      unfold bind at 1. unfold lift at 1. rewrite Hh.
      unfold bind at 1.
      rewrite write_live by (cbn [f_id w_live opened]; set_solver).
      apply write_records_raise; try assumption;
        cbn [f_id w_live opened]; set_solver.
  - unfold build_sequence_store. rewrite Hb. cbn [negb].
    unfold bind at 1. unfold lift at 1. rewrite Hl.
    unfold bind at 1. unfold lift at 1. rewrite Hc.
    unfold bind at 1. unfold lift at 1. rewrite Hs.
    rewrite !with_open_wb_fst.
    unfold bind at 1. unfold lift at 1. now rewrite Hh.
Qed.

(** ** The layout of the records *)

(** The record of item [n], what it was packed from, and where its value
    starts in the data file. *)
Lemma pack_items_lookup items : forall offset recs n key seq,
  pack_items items offset = Ok recs ->
  items !! n = Some (key, seq) ->
  exists v k,
    recs !! n =
      Some (v, k, le_split 8 (offset + len (data_bytes (take n recs)))
                  ++ le_split 4 (len v)) /\
    py_bytes key = Ok k /\ seq_to_bytes seq = Ok v /\
    0 <= offset + len (data_bytes (take n recs)) < 2 ^ 64 /\
    0 <= len v < 2 ^ 32.
Proof.
  induction items as [|[key0 seq0] rest IH]; intros offset recs n key seq Hp Hn;
    [now rewrite lookup_nil in Hn|].
  cbn [pack_items] in Hp.
  destruct (seq_to_bytes seq0) as [v0|] eqn:Ev; cbn [rbind] in Hp; [|discriminate].
  destruct (py_bytes key0) as [k0|] eqn:Ek; cbn [rbind] in Hp; [|discriminate].
  destruct (OFFSET_STRUCT.pack offset (len v0)) as [r0|] eqn:Er; cbn [rbind] in Hp;
    [|discriminate].
  destruct (pack_items rest (offset + len v0)) as [recs'|] eqn:Ep;
    cbn [rbind] in Hp; [|discriminate].
  injection Hp as <-.
  apply offset_pack_ok in Er as (-> & Ho & Hv).
  destruct n as [|n].
  - injection Hn as -> ->. exists v0, k0.
    cbn [take data_bytes flat_map]. change (len (@nil byte)) with 0.
    rewrite Z.add_0_r. auto.
  - cbn [lookup list_lookup] in Hn.
    destruct (IH _ _ _ _ _ Ep Hn) as (v & k & Hr & Hk & Hv' & Ho' & Hl).
    exists v, k. cbn [take data_bytes flat_map].
    fold (data_bytes (take n recs')). rewrite len_app.
    rewrite Z.add_assoc. auto.
Qed.

Lemma pack_items_length items : forall offset recs,
  pack_items items offset = Ok recs -> length recs = length items.
Proof.
  induction items as [|[key0 seq0] rest IH]; intros offset recs Hp.
  - injection Hp as <-. reflexivity.
  - cbn [pack_items] in Hp.
    destruct (seq_to_bytes seq0) as [v0|]; cbn [rbind] in Hp; [|discriminate].
    destruct (py_bytes key0) as [k0|]; cbn [rbind] in Hp; [|discriminate].
    destruct (OFFSET_STRUCT.pack offset (len v0)) as [r0|]; cbn [rbind] in Hp;
      [|discriminate].
    destruct (pack_items rest (offset + len v0)) as [recs'|] eqn:Ep;
      cbn [rbind] in Hp; [|discriminate].
    injection Hp as <-. simpl. f_equal. eauto.
Qed.

Lemma index_records_len key_size recs :
  Forall (rec_sized key_size) recs ->
  len (index_records recs) = len recs * (key_size + OFFSET_STRUCT.size).
Proof.
  induction 1 as [|[[v k] r] recs [Hk Hr] _ IH].
  - reflexivity.
  - cbn [index_records flat_map]. fold (index_records recs).
    rewrite !len_app, IH, len_cons. unfold rec_key in Hk. simpl in Hk, Hr.
    lia.
Qed.

Lemma index_records_split key_size recs n v k r :
  Forall (rec_sized key_size) recs ->
  recs !! n = Some (v, k, r) ->
  exists pre post,
    index_records recs = pre ++ k ++ r ++ post /\
    len pre = Z.of_nat n * (key_size + OFFSET_STRUCT.size).
Proof.
  intros Hs Hn.
  exists (index_records (take n recs)), (index_records (drop (S n) recs)).
  split.
  - rewrite <- (take_drop_middle recs n _ Hn) at 1.
    unfold index_records. rewrite flat_map_app. cbn [flat_map].
    now rewrite <- !app_assoc.
  - rewrite (index_records_len key_size) by now apply Forall_take.
    unfold len at 1. rewrite length_take.
    apply lookup_lt_Some in Hn. f_equal. lia.
Qed.

Lemma data_bytes_split recs n v k r :
  recs !! n = Some (v, k, r) ->
  data_bytes recs =
    data_bytes (take n recs) ++ v ++ data_bytes (drop (S n) recs).
Proof.
  intros Hn. rewrite <- (take_drop_middle recs n _ Hn) at 1.
  unfold data_bytes. rewrite flat_map_app. reflexivity.
Qed.

(** ** Slices and fields of a buffer *)

Lemma slice_middle (pre x post : bytes) start :
  start = len pre ->
  slice (pre ++ x ++ post) start (start + len x) = x.
Proof.
  intros ->. unfold slice, slice_index.
  rewrite !len_app.
  pose proof (len_nonneg pre). pose proof (len_nonneg x).
  pose proof (len_nonneg post).
  destruct (Z.ltb_spec (len pre) 0); [lia|].
  destruct (Z.ltb_spec (len pre + len x) 0); [lia|].
  rewrite !Z.min_l by lia.
  unfold len. rewrite Nat2Z.id.
  replace (Z.to_nat (_ + _ - _)) with (length x) by lia.
  rewrite drop_app_length. now rewrite take_app_length.
Qed.

Lemma unpack_base_middle size (pre x post : bytes) offset :
  offset = len pre -> len x = size ->
  unpack_base size (pre ++ x ++ post) offset = Ok (length pre).
Proof.
  intros -> <-. unfold unpack_base. rewrite !len_app.
  pose proof (len_nonneg pre). pose proof (len_nonneg x).
  pose proof (len_nonneg post).
  destruct (Z.ltb_spec (len pre) 0); [lia|].
  destruct (Z.leb_spec 0 (len pre)); [|lia].
  destruct (Z.leb_spec (len pre + len x) (len pre + (len x + len post))); [|lia].
  cbn [andb]. unfold len. now rewrite Nat2Z.id.
Qed.

Lemma offset_unpack_middle (pre post : bytes) base offset length :
  base = len pre ->
  0 <= offset < 2 ^ 64 -> 0 <= length < 2 ^ 32 ->
  OFFSET_STRUCT.unpack_from
    (pre ++ (le_split 8 offset ++ le_split 4 length) ++ post) base =
  Ok (offset, length).
Proof.
  intros Hb Ho Hl. unfold OFFSET_STRUCT.unpack_from.
  rewrite (unpack_base_middle OFFSET_STRUCT.size) by
    (try assumption; unfold len; now rewrite length_app, !length_le_split).
  cbn [rbind]. rewrite drop_app_length. rewrite <- !app_assoc.
  rewrite (take_app_length' (le_split 8 offset)) by now rewrite length_le_split.
  rewrite (drop_app_length' (le_split 8 offset)) by now rewrite length_le_split.
  rewrite (take_app_length' (le_split 4 length)) by now rewrite length_le_split.
  now rewrite !le_combine_split_small by assumption.
Qed.

Lemma header_unpack key_size count (rest : bytes) :
  0 <= key_size < 2 ^ 32 -> 0 <= count < 2 ^ 64 ->
  HEADER_STRUCT.unpack_from
    ((resize 8 "000"%byte MAGIC ++ le_split 4 key_size ++ le_split 8 count) ++ rest) 0 =
  Ok (MAGIC, key_size, count).
Proof.
  intros Hk Hc. unfold HEADER_STRUCT.unpack_from.
  change (resize 8 "000"%byte MAGIC) with MAGIC.
  assert (unpack_base HEADER_STRUCT.size
            ((MAGIC ++ le_split 4 key_size ++ le_split 8 count) ++ rest) 0 = Ok 0%nat)
    as ->.
  { apply (unpack_base_middle HEADER_STRUCT.size []); [reflexivity|].
    unfold len. now rewrite !length_app, !length_le_split. }
  cbn [rbind]. rewrite !drop_0, <- !app_assoc.
  rewrite (take_app_length' MAGIC) by reflexivity.
  rewrite (drop_app_length' MAGIC) by reflexivity.
  rewrite (take_app_length' (le_split 4 key_size)) by now rewrite length_le_split.
  change 12%nat with (length MAGIC + 4)%nat.
  rewrite drop_app_add. 
  rewrite (drop_app_length' (le_split 4 key_size)) by now rewrite length_le_split.
  rewrite (take_app_length' (le_split 8 count)) by now rewrite length_le_split.
  now rewrite !le_combine_split_small by assumption.
Qed.

(** ** Validated keys and the sorted items *)

Lemma check_keys_ok basename key_size items :
  check_keys basename key_size items = Ok tt <->
  Forall (bytes_key key_size) items.
Proof.
  induction items as [|[key seq] rest IH]; cbn [check_keys].
  - split; [constructor|reflexivity].
  - destruct key as [|s|k]; cbn [is_bytes_like negb py_len rbind].
    + split; [discriminate|]. intros H. apply Forall_cons in H as [[H _] _].
      discriminate.
    + split; [discriminate|]. intros H. apply Forall_cons in H as [[H _] _].
      discriminate.
    + destruct (Z.eqb_spec (len k) key_size) as [E|E]; cbn [negb].
      * rewrite IH. split.
        { intros H. constructor; [|assumption]. split; [reflexivity|exact E]. }
        { intros H. now apply Forall_cons in H as [_ H]. }
      * split; [discriminate|]. intros H. apply Forall_cons in H as [[_ H] _].
        contradiction.
Qed.

Lemma check_keys_raise basename key_size items e :
  check_keys basename key_size items = Raise e ->
  e = keys_must_be_bytes basename \/ e = inconsistent_key_size basename.
Proof.
  induction items as [|[key seq] rest IH]; cbn [check_keys]; [discriminate|].
  destruct key as [|s|k]; cbn [is_bytes_like negb py_len rbind];
    try (intros [= <-]; now left).
  destruct (len k =? key_size); cbn [negb]; [assumption|].
  intros [= <-]. now right.
Qed.

Lemma sort_keys_ok key_size items :
  Forall (bytes_key key_size) items -> sort_keys items = Ok (decorate items).
Proof.
  induction 1 as [|it rest [Hk _] _ IH]; [reflexivity|].
  cbn [sort_keys decorate map]. rewrite Hk. cbn [py_bytes rbind].
  fold (decorate rest). now rewrite IH.
Qed.

Lemma sort_keys_raise items e : sort_keys items = Raise e -> e = TypeError.
Proof.
  induction items as [|[key seq] rest IH]; cbn [sort_keys]; [discriminate|].
  destruct key; cbn [fst py_bytes rbind]; try (now intros [= <-]).
  destruct (sort_keys rest); cbn [rbind]; [discriminate|].
  intros [= <-]. now apply IH.
Qed.

Lemma items_sort_ok key_size items :
  Forall (bytes_key key_size) items -> items_sort items = Ok (sorted_items items).
Proof.
  intros H. unfold items_sort. now rewrite (sort_keys_ok key_size).
Qed.

Lemma decorated_sorted items :
  Forall (fun x => fst x = key_of (snd x)) (sort_keyed (decorate items)).
Proof.
  rewrite sort_keyed_perm. unfold decorate. apply Forall_forall.
  intros x Hx. apply list_elem_of_In, in_map_iff in Hx as (it & <- & _).
  reflexivity.
Qed.

Lemma sorted_items_perm items : Permutation (sorted_items items) items.
Proof.
  unfold sorted_items. rewrite sort_keyed_perm. unfold decorate.
  rewrite map_map. cbn [snd]. now rewrite map_id.
Qed.

Lemma sorted_items_keys items :
  map key_of (sorted_items items) = map fst (sort_keyed (decorate items)).
Proof.
  unfold sorted_items. rewrite map_map.
  apply map_ext_Forall. eapply Forall_impl; [apply decorated_sorted|].
  intros x Hx. now rewrite Hx.
Qed.

Lemma sorted_items_sorted key_size items :
  Forall (bytes_key key_size) items ->
  NoDup (map fst items) ->
  StronglySorted bytes_lt (map key_of (sorted_items items)).
Proof.
  intros Hk Hnd. rewrite sorted_items_keys.
  apply (StronglySorted_fmap fst key_lt bytes_lt); [now intros x y|].
  apply sorted_strict; [|apply sort_keyed_sorted].
  apply (NoDup_Permutation_proper _ _ (Permutation_map fst (sort_keyed_perm _))).
  unfold decorate. rewrite map_map. cbn [fst].
  apply (NoDup_fmap_1 PyBytes).
  replace (PyBytes <$> map key_of items) with (map fst items); [assumption|].
  change (map fst items = map PyBytes (map key_of items)).
  rewrite map_map. apply map_ext_Forall.
  eapply Forall_impl; [exact Hk|]. now intros it [H _].
Qed.

Lemma StronglySorted_lookup_lt {A} (R : A -> A -> Prop) l i j x y :
  StronglySorted R l -> (i < j)%nat ->
  l !! i = Some x -> l !! j = Some y -> R x y.
Proof.
  intros Hs Hij Hi Hj. rewrite <- (take_drop j l) in Hs.
  eapply StronglySorted_app_1_elem_of; [exact Hs| |].
  - apply list_elem_of_lookup. exists i. now rewrite lookup_take_lt.
  - apply list_elem_of_lookup. exists 0%nat. rewrite lookup_drop.
    now rewrite Nat.add_0_r.
Qed.

Lemma pack_items_keys items : forall offset recs,
  pack_items items offset = Ok recs ->
  Forall (fun it => is_bytes_like (fst it) = true) items /\
  map rec_key recs = map key_of items.
Proof.
  induction items as [|[key0 seq0] rest IH]; intros offset recs Hp.
  - injection Hp as <-. split; [constructor|reflexivity].
  - cbn [pack_items] in Hp.
    destruct (seq_to_bytes seq0) as [v0|]; cbn [rbind] in Hp; [|discriminate].
    destruct (py_bytes key0) as [k0|] eqn:Ek; cbn [rbind] in Hp; [|discriminate].
    destruct (OFFSET_STRUCT.pack offset (len v0)) as [r0|]; cbn [rbind] in Hp;
      [|discriminate].
    destruct (pack_items rest (offset + len v0)) as [recs'|] eqn:Ep;
      cbn [rbind] in Hp; [|discriminate].
    injection Hp as <-. destruct (IH _ _ Ep) as [Hb Hm].
    destruct key0; try discriminate. injection Ek as ->.
    split; [now constructor|]. cbn [map]. now rewrite Hm.
Qed.

(** ** A store laid out over sorted records *)

Section Layout.
Variable self : SequenceMmapStore.
Variable recs : list (bytes * bytes * bytes).
Hypothesis layout : store_layout self recs.

Lemma record_key_len n v k r :
  recs !! n = Some (v, k, r) -> len k = _key_size self.
Proof.
  intros Hn. pose proof (sl_sized _ _ layout) as Hs.
  rewrite Forall_forall in Hs.
  apply (Hs (v, k, r)). apply list_elem_of_lookup. eauto.
Qed.

Lemma index_split n v k r :
  recs !! n = Some (v, k, r) ->
  exists pre post,
    mm_buf (_index_mm self) = pre ++ k ++ r ++ post /\
    len pre = _header_size self + Z.of_nat n * _record_size self.
Proof.
  intros Hn. destruct (sl_index _ _ layout) as (header & Hh & Hbuf).
  destruct (index_records_split _ _ _ _ _ _ (sl_sized _ _ layout) Hn)
    as (pre & post & Hsplit & Hpre).
  exists (header ++ pre), post. split.
  - rewrite Hbuf, Hsplit. now rewrite <- !app_assoc.
  - rewrite len_app, Hh, Hpre.
    now rewrite (sl_header_size _ _ layout), (sl_record_size _ _ layout).
Qed.

Lemma key_at_record n v k r :
  recs !! n = Some (v, k, r) -> _key_at self (Z.of_nat n) = k.
Proof.
  intros Hn. destruct (index_split _ _ _ _ Hn) as (pre & post & Hbuf & Hpre).
  unfold _key_at. rewrite Hbuf.
  assert (len k = _key_size self) as <-.
  { exact (record_key_len _ _ _ _ Hn). }
  apply slice_middle. now rewrite Hpre.
Qed.

Lemma offset_and_length_record n v k r :
  recs !! n = Some (v, k, r) ->
  _offset_and_length self (Z.of_nat n) =
    Ok (len (data_bytes (take n recs)), len v).
Proof.
  intros Hn. destruct (index_split _ _ _ _ Hn) as (pre & post & Hbuf & Hpre).
  pose proof (record_key_len _ _ _ _ Hn) as Hk.
  destruct (sl_packed _ _ layout _ _ _ _ Hn) as (-> & Ho & Hl).
  unfold _offset_and_length. rewrite Hbuf.
  rewrite (app_assoc pre k). apply offset_unpack_middle; try assumption.
  rewrite len_app, Hpre, Hk. reflexivity.
Qed.

Lemma data_slice_record n v k r :
  recs !! n = Some (v, k, r) ->
  slice (mm_buf (_data_mm self)) (len (data_bytes (take n recs)))
        (len (data_bytes (take n recs)) + len v) = v.
Proof.
  intros Hn. rewrite (sl_data _ _ layout), (data_bytes_split _ _ _ _ _ Hn).
  now apply slice_middle.
Qed.

Lemma keys_increasing i j ri rj :
  (i < j)%nat -> recs !! i = Some ri -> recs !! j = Some rj ->
  bytes_lt (rec_key ri) (rec_key rj).
Proof.
  intros Hij Hi Hj.
  eapply (StronglySorted_lookup_lt _ _ i j); [apply (sl_sorted _ _ layout)|assumption| |].
  - change (map rec_key recs) with (rec_key <$> recs).
    now rewrite list_lookup_fmap, Hi.
  - change (map rec_key recs) with (rec_key <$> recs).
    now rewrite list_lookup_fmap, Hj.
Qed.

Lemma key_at_of_index i :
  0 <= i < _count self ->
  exists rec, recs !! Z.to_nat i = Some rec /\ _key_at self i = rec_key rec.
Proof.
  intros Hi. rewrite (sl_count _ _ layout) in Hi. unfold len in Hi.
  destruct (lookup_lt_is_Some_2 recs (Z.to_nat i) ltac:(lia)) as [[[v k] r] Hrec].
  exists (v, k, r). split; [assumption|].
  change (rec_key (v, k, r)) with k.
  rewrite <- (key_at_record _ _ _ _ Hrec). f_equal. lia.
Qed.

Lemma key_at_increasing i j :
  0 <= i -> i < j -> j < _count self ->
  bytes_lt (_key_at self i) (_key_at self j).
Proof.
  intros H0 Hij Hj.
  destruct (key_at_of_index i) as (ri & Hri & ->); [lia|].
  destruct (key_at_of_index j) as (rj & Hrj & ->); [lia|].
  apply (keys_increasing (Z.to_nat i) (Z.to_nat j)); try assumption. lia.
Qed.

(** The search: it ends within the fuel, on the index of the key when the
    key is stored between [lo] and [hi] or nowhere, and on -1 otherwise. *)
Lemma _find_index_loop_spec key_bytes : forall fuel lo hi,
  0 <= lo -> hi < _count self -> hi - lo + 1 <= Z.of_nat fuel ->
  (forall i, 0 <= i < _count self -> _key_at self i = key_bytes -> lo <= i <= hi) ->
  exists r,
    _find_index_loop self fuel key_bytes lo hi = Some r /\
    ((r = -1 /\ forall i, 0 <= i < _count self -> _key_at self i <> key_bytes) \/
     (0 <= r < _count self /\ _key_at self r = key_bytes)).
Proof.
  induction fuel as [|fuel IH]; intros lo hi Hlo Hhi Hfuel Hrange.
  - cbn [_find_index_loop]. destruct (Z.leb_spec lo hi); [lia|].
    exists (-1). split; [reflexivity|]. left. split; [reflexivity|].
    intros i Hi Hk. specialize (Hrange i Hi Hk). lia.
  - cbn [_find_index_loop]. destruct (Z.leb_spec lo hi) as [Hle|Hgt].
    + set (mid := (lo + hi) / 2).
      assert (lo <= mid <= hi) as Hmid.
      { unfold mid. split.
        - apply Z.div_le_lower_bound; lia.
        - apply Z.div_le_upper_bound; lia. }
      destruct (bytes_eqb (_key_at self mid) key_bytes) eqn:Eeq.
      * exists mid. split; [reflexivity|]. right.
        apply bytes_eqb_eq in Eeq. split; [lia|assumption].
      * destruct (bytes_ltb (_key_at self mid) key_bytes) eqn:Elt.
        { apply IH; try lia. intros i Hi Hk.
          specialize (Hrange i Hi Hk). split; [|lia].
          destruct (Z_lt_le_dec mid i) as [|Hle']; [lia|]. exfalso.
          apply bytes_ltb_lt in Elt.
          destruct (Z.eq_dec i mid) as [->|Hne].
          - rewrite Hk in Elt. now apply bytes_lt_irrefl in Elt.
          - assert (bytes_lt (_key_at self i) (_key_at self mid)) as Hlt
              by (apply key_at_increasing; lia).
            rewrite Hk in Hlt. unfold bytes_lt in Hlt.
            rewrite (bytes_compare_antisym key_bytes), Hlt in Elt.
            discriminate. }
        { apply IH; try lia. intros i Hi Hk.
          specialize (Hrange i Hi Hk). split; [lia|].
          destruct (Z_lt_le_dec i mid) as [|Hle']; [lia|]. exfalso.
          destruct (Z.eq_dec i mid) as [->|Hne].
          - apply bytes_eqb_eq in Hk. congruence.
          - assert (bytes_lt (_key_at self mid) (_key_at self i)) as Hlt
              by (apply key_at_increasing; lia).
            rewrite Hk in Hlt. apply bytes_ltb_lt in Hlt. congruence. }
    + exists (-1). split; [reflexivity|]. left. split; [reflexivity|].
      intros i Hi Hk. specialize (Hrange i Hi Hk). lia.
Qed.

(** [_find_index] on a byte query of the right length. *)
Lemma find_index_bytes key_bytes :
  len key_bytes = _key_size self ->
  (_find_index self (PyBytes key_bytes) = -1 /\
   forall rec, rec ∈ recs -> rec_key rec <> key_bytes) \/
  (exists n rec,
     _find_index self (PyBytes key_bytes) = Z.of_nat n /\
     recs !! n = Some rec /\ rec_key rec = key_bytes).
Proof.
  intros Hlen. unfold _find_index.
  rewrite Hlen, Z.eqb_refl. cbn [negb].
  destruct (_find_index_loop_spec key_bytes (Z.to_nat (_count self)) 0
              (_count self - 1)) as (r & -> & [[-> Hno]|[Hr Hk]]).
  - lia.
  - lia.
  - rewrite (sl_count _ _ layout). unfold len. lia.
  - intros i Hi _. lia.
  - left. split; [reflexivity|]. intros rec Hin Hk.
    apply list_elem_of_lookup in Hin as [n Hn].
    destruct rec as [[v k] r]. pose proof (key_at_record _ _ _ _ Hn) as Hkey.
    apply (Hno (Z.of_nat n)).
    + rewrite (sl_count _ _ layout). apply lookup_lt_Some in Hn.
      unfold len. lia.
    + rewrite Hkey. exact Hk.
  - right. destruct (key_at_of_index r Hr) as (rec & Hrec & Hkey).
    exists (Z.to_nat r), rec. cbn [default from_option id].
    split; [lia|]. split; [assumption|]. congruence.
Qed.

(** A query that is no byte sequence, or of another length, misses. *)
Lemma find_index_reject key :
  (forall key_bytes, key = PyBytes key_bytes -> len key_bytes <> _key_size self) ->
  _find_index self key = -1.
Proof.
  intros H. unfold _find_index. destruct key as [|s|k]; try reflexivity.
  destruct (Z.eqb_spec (len k) (_key_size self)) as [E|E]; [|reflexivity].
  now specialize (H k eq_refl).
Qed.

Lemma find_index_record n v k r :
  recs !! n = Some (v, k, r) -> _find_index self (PyBytes k) = Z.of_nat n.
Proof.
  intros Hn. pose proof (record_key_len _ _ _ _ Hn) as Hk.
  destruct (find_index_bytes k Hk) as [[_ Hno]|(m & rec & -> & Hm & Hkey)].
  - exfalso. apply (Hno (v, k, r)); [|reflexivity].
    apply list_elem_of_lookup. eauto.
  - f_equal.
    destruct (Nat.lt_trichotomy m n) as [Hlt|[->|Hlt]]; [|reflexivity|].
    + pose proof (keys_increasing _ _ _ _ Hlt Hm Hn) as Hc.
      rewrite Hkey in Hc. now apply bytes_lt_irrefl in Hc.
    + pose proof (keys_increasing _ _ _ _ Hlt Hn Hm) as Hc.
      rewrite Hkey in Hc. now apply bytes_lt_irrefl in Hc.
Qed.

Lemma get_record n v k r default :
  recs !! n = Some (v, k, r) ->
  get self (PyBytes k) default = rbind (decode_ascii v) (fun s => Ok (PyStr s)).
Proof.
  intros Hn. unfold get. rewrite (find_index_record _ _ _ _ Hn).
  destruct (Z.ltb_spec (Z.of_nat n) 0); [lia|].
  rewrite (offset_and_length_record _ _ _ _ Hn). cbn [rbind].
  now rewrite (data_slice_record _ _ _ _ Hn).
Qed.
End Layout.

(** ** Opening a store *)

Lemma init_run index_path data_path w ibuf dbuf :
  w_files w !! index_path = Some ibuf ->
  w_files w !! data_path = Some dbuf ->
  ibuf <> [] -> dbuf <> [] ->
  __init__ index_path data_path w =
    match HEADER_STRUCT.unpack_from ibuf 0 with
    | Ok (magic, key_size, count) =>
        if negb (bytes_eqb magic MAGIC)
        then (Raise (invalid_magic index_path), mapped w)
        else (Ok (opened_store index_path data_path w ibuf dbuf key_size count),
              mapped w)
    | Raise e => (Raise e, mapped w)
    end.
Proof.
  intros Hi Hd Hin Hdn.
  unfold __init__, bind, open_rb, mmap_mmap, lift, alloc. rewrite Hi.
  cbn [w_files w_live w_next w_faulty w_trace]. rewrite Hd.
  cbv beta iota. cbn [f_id f_path w_files w_live w_next w_faulty w_trace].
  decide_live. rewrite Hi.
  destruct ibuf as [|x ibuf]; [contradiction|].
  cbv beta iota. cbn [f_id f_path w_files w_live w_next w_faulty w_trace].
  decide_live. rewrite Hd.
  destruct dbuf as [|y dbuf]; [contradiction|].
  cbn [mm_buf w_files w_live w_next w_faulty w_trace].
  destruct (HEADER_STRUCT.unpack_from (x :: ibuf) 0) as [[[magic key_size] count]|e];
    [|reflexivity].
  destruct (negb (bytes_eqb magic MAGIC)); reflexivity.
Qed.

Lemma init_ok_inv index_path data_path w self w' :
  __init__ index_path data_path w = (Ok self, w') ->
  exists ibuf dbuf,
    w_files w !! index_path = Some ibuf /\
    w_files w !! data_path = Some dbuf /\
    dbuf <> [] /\
    HEADER_STRUCT.unpack_from ibuf 0 = Ok (MAGIC, _key_size self, _count self) /\
    self = opened_store index_path data_path w ibuf dbuf
             (_key_size self) (_count self) /\
    w' = mapped w.
Proof.
  destruct (w_files w !! index_path) as [ibuf|] eqn:Hi;
    [|unfold __init__, bind, open_rb; now rewrite Hi].
  destruct (w_files w !! data_path) as [dbuf|] eqn:Hd;
    [|unfold __init__, bind, open_rb, alloc; rewrite Hi;
      cbn [w_files]; now rewrite Hd].
  destruct ibuf as [|x ibuf].
  { unfold __init__, bind, open_rb, mmap_mmap, alloc. rewrite Hi.
    cbn [w_files w_live w_next w_faulty w_trace]. rewrite Hd.
    cbv beta iota. cbn [f_id f_path w_files w_live w_next w_faulty w_trace].
    decide_live. now rewrite Hi. }
  destruct dbuf as [|y dbuf].
  { unfold __init__, bind, open_rb, mmap_mmap, alloc. rewrite Hi.
    cbn [w_files w_live w_next w_faulty w_trace]. rewrite Hd.
    cbv beta iota. cbn [f_id f_path w_files w_live w_next w_faulty w_trace].
    decide_live. rewrite Hi.
    cbv beta iota. cbn [f_id f_path w_files w_live w_next w_faulty w_trace].
    decide_live. now rewrite Hd. }
  rewrite (init_run _ _ _ _ _ Hi Hd) by discriminate.
  destruct (HEADER_STRUCT.unpack_from (x :: ibuf) 0)
    as [[[magic key_size] count]|e] eqn:Hu; [|discriminate].
  destruct (bytes_eqb magic MAGIC) eqn:Em; cbn [negb]; [|discriminate].
  apply bytes_eqb_eq in Em as ->.
  intros [= <- <-]. exists (x :: ibuf), (y :: dbuf).
  split; [reflexivity|]. split; [reflexivity|]. split; [discriminate|].
  split; [exact Hu|]. split; reflexivity.
Qed.

(** ** From a build to the layout of the opened store *)

Lemma build_ok_inv index_folder basename seq_dict w w1 :
  seq_dict <> [] ->
  build_sequence_store index_folder basename seq_dict w = (Ok tt, w1) ->
  exists key_size header recs,
    Forall (bytes_key key_size) seq_dict /\
    HEADER_STRUCT.pack MAGIC key_size (len (sorted_items seq_dict)) = Ok header /\
    pack_items (sorted_items seq_dict) 0 = Ok recs /\
    w1 = built_world w (data_path_of index_folder basename)
                     (index_path_of index_folder basename) header recs.
Proof.
  destruct seq_dict as [|[first_key v0] rest]; [contradiction|]. intros _ Hrun.
  destruct (is_bytes_like first_key) eqn:Hb;
    [|unfold build_sequence_store in Hrun; rewrite Hb in Hrun; discriminate].
  pose proof (build_result index_folder basename first_key v0 rest w Hb) as Hres.
  rewrite Hrun in Hres. cbn [fst] in Hres.
  destruct (py_len first_key) as [key_size|] eqn:Hl; cbn [rbind] in Hres;
    [|discriminate].
  destruct (check_keys basename key_size ((first_key, v0) :: rest)) as [[]|] eqn:Hc;
    cbn [rbind] in Hres; [|discriminate].
  pose proof (proj1 (check_keys_ok _ _ _) Hc) as Hk.
  pose proof (items_sort_ok _ _ Hk) as Hs. rewrite Hs in Hres. cbn [rbind] in Hres.
  destruct (HEADER_STRUCT.pack MAGIC key_size
              (len (sorted_items ((first_key, v0) :: rest)))) as [header|] eqn:Hh;
    cbn [rbind] in Hres; [|discriminate].
  destruct (pack_items (sorted_items ((first_key, v0) :: rest)) 0) as [recs|] eqn:Hp;
    cbn [rbind] in Hres; [|discriminate].
  exists key_size, header, recs. repeat split; try assumption.
  rewrite (build_run _ _ _ _ _ _ _ _ _ _ Hb Hl Hc Hs Hh Hp) in Hrun.
  now injection Hrun.
Qed.

Lemma pack_items_sized key_size items : forall offset recs,
  pack_items items offset = Ok recs ->
  Forall (bytes_key key_size) items ->
  Forall (rec_sized key_size) recs.
Proof.
  induction items as [|[key0 seq0] rest IH]; intros offset recs Hp Hk.
  - injection Hp as <-. constructor.
  - cbn [pack_items] in Hp.
    destruct (seq_to_bytes seq0) as [v0|]; cbn [rbind] in Hp; [|discriminate].
    destruct (py_bytes key0) as [k0|] eqn:Ek; cbn [rbind] in Hp; [|discriminate].
    destruct (OFFSET_STRUCT.pack offset (len v0)) as [r0|] eqn:Er; cbn [rbind] in Hp;
      [|discriminate].
    destruct (pack_items rest (offset + len v0)) as [recs'|] eqn:Ep;
      cbn [rbind] in Hp; [|discriminate].
    injection Hp as <-. apply Forall_cons in Hk as [[Hk0 Hl0] Hk].
    constructor; [|eauto].
    cbn [fst] in Hk0. rewrite Hk0 in Ek. injection Ek as <-.
    apply offset_pack_ok in Er as (-> & _ & _).
    split; [exact Hl0|]. cbn [snd]. unfold len.
    now rewrite length_app, !length_le_split.
Qed.

Lemma pack_items_record items offset recs n v k r :
  pack_items items offset = Ok recs ->
  recs !! n = Some (v, k, r) ->
  exists seq,
    items !! n = Some (PyBytes k, seq) /\ seq_to_bytes seq = Ok v /\
    r = le_split 8 (offset + len (data_bytes (take n recs))) ++ le_split 4 (len v) /\
    0 <= offset + len (data_bytes (take n recs)) < 2 ^ 64 /\
    0 <= len v < 2 ^ 32.
Proof.
  intros Hp Hn.
  destruct (lookup_lt_is_Some_2 items n) as [[key seq] Hit].
  { rewrite <- (pack_items_length _ _ _ Hp). now apply lookup_lt_Some in Hn. }
  destruct (pack_items_lookup _ _ _ _ _ _ Hp Hit) as (v' & k' & Hr & Hk & Hv & Ho & Hl).
  rewrite Hn in Hr. injection Hr as -> -> ->.
  destruct key; try discriminate. injection Hk as ->.
  exists seq. auto.
Qed.

Lemma header_len magic key_size count header :
  HEADER_STRUCT.pack magic key_size count = Ok header ->
  len header = HEADER_STRUCT.size.
Proof.
  intros H. apply header_pack_ok in H as (-> & _ & _).
  unfold len. now rewrite !length_app, length_resize, !length_le_split.
Qed.

(** The files a build leaves, and the layout of a store opened on them. *)
Lemma build_layout index_folder basename seq_dict w w1 :
  seq_dict <> [] ->
  NoDup (map fst seq_dict) ->
  build_sequence_store index_folder basename seq_dict w = (Ok tt, w1) ->
  exists key_size header recs,
    pack_items (sorted_items seq_dict) 0 = Ok recs /\
    Forall (bytes_key key_size) seq_dict /\
    (w_files w1 !! index_path_of index_folder basename =
       Some (header ++ index_records recs)) /\
    (w_files w1 !! data_path_of index_folder basename =
       Some (data_bytes recs)) /\
    (HEADER_STRUCT.unpack_from (header ++ index_records recs) 0 =
       Ok (MAGIC, key_size, len recs)) /\
    forall w',
      store_layout
        (opened_store (index_path_of index_folder basename)
                      (data_path_of index_folder basename) w'
                      (header ++ index_records recs) (data_bytes recs)
                      key_size (len recs))
        recs.
Proof.
  intros Hne Hnd Hbuild.
  destruct (build_ok_inv _ _ _ _ _ Hne Hbuild)
    as (key_size & header & recs & Hk & Hh & Hp & ->).
  pose proof (paths_differ index_folder basename) as Hpaths.
  pose proof (header_len _ _ _ _ Hh) as Hhl.
  pose proof (pack_items_length _ _ _ Hp) as Hlen.
  assert (Forall (bytes_key key_size) (sorted_items seq_dict)) as Hk'.
  { now rewrite sorted_items_perm. }
  exists key_size, header, recs.
  split; [assumption|]. split; [assumption|].
  unfold built_world. cbn [w_files].
  split; [now rewrite lookup_insert_eq|].
  split; [rewrite lookup_insert_ne by congruence; now rewrite lookup_insert_eq|].
  split.
  { apply header_pack_ok in Hh as (-> & Hks & Hcnt).
    unfold len at 2. rewrite Hlen. now apply header_unpack. }
  intros w'. constructor; cbn [opened_store mm_buf _index_mm _data_mm _key_size
                                _count _header_size _record_size].
  - exists header. auto.
  - reflexivity.
  - reflexivity.
  - reflexivity.
  - reflexivity.
  - eapply pack_items_sized; eassumption.
  - intros n v k r Hn.
    destruct (pack_items_record _ _ _ _ _ _ _ Hp Hn) as (seq & _ & _ & Hr & Ho & Hl).
    rewrite Z.add_0_l in Hr, Ho. auto.
  - destruct (pack_items_keys _ _ _ Hp) as [_ ->].
    eapply sorted_items_sorted; eassumption.
Qed.

Lemma built_store_layout index_folder basename seq_dict w self :
  seq_dict <> [] ->
  NoDup (map fst seq_dict) ->
  built_store index_folder basename seq_dict w self ->
  exists recs,
    pack_items (sorted_items seq_dict) 0 = Ok recs /\
    Forall (bytes_key (_key_size self)) seq_dict /\
    store_layout self recs.
Proof.
  intros Hne Hnd (w1 & w2 & Hbuild & Hinit).
  destruct (build_layout _ _ _ _ _ Hne Hnd Hbuild)
    as (key_size & header & recs & Hp & Hk & Hi & Hd & Hu & Hlayout).
  destruct (init_ok_inv _ _ _ _ _ Hinit)
    as (ibuf & dbuf & Hi' & Hd' & _ & Hu' & Hself & _).
  rewrite Hi in Hi'. injection Hi' as <-.
  rewrite Hd in Hd'. injection Hd' as <-.
  rewrite Hu in Hu'. injection Hu' as Eks Ecnt.
  rewrite <- Eks, <- Ecnt in Hself.
  exists recs. split; [assumption|]. rewrite <- Eks. split; [assumption|].
  rewrite Hself. apply Hlayout.
Qed.

(** The records of a built store are the items of the mapping. *)
Lemma records_of_items seq_dict recs :
  pack_items (sorted_items seq_dict) 0 = Ok recs ->
  (forall key seq, In (key, seq) seq_dict ->
     exists n v k r,
       recs !! n = Some (v, k, r) /\ key = PyBytes k /\ seq_to_bytes seq = Ok v) /\
  (forall n v k r, recs !! n = Some (v, k, r) ->
     exists seq, In (PyBytes k, seq) seq_dict /\ seq_to_bytes seq = Ok v).
Proof.
  intros Hp. split.
  - intros key seq Hin.
    apply list_elem_of_In in Hin. rewrite <- sorted_items_perm in Hin.
    apply list_elem_of_lookup in Hin as [n Hn].
    destruct (pack_items_lookup _ _ _ _ _ _ Hp Hn) as (v & k & Hr & Hk & Hv & _).
    destruct key; try discriminate. injection Hk as ->.
    exists n, v, k. eauto.
  - intros n v k r Hn.
    destruct (pack_items_record _ _ _ _ _ _ _ Hp Hn) as (seq & Hit & Hv & _).
    exists seq. split; [|assumption].
    apply list_elem_of_In. rewrite <- sorted_items_perm.
    apply list_elem_of_lookup. eauto.
Qed.

(** ** Values that fit the store *)

Lemma data_len_nonneg items : 0 <= data_len items.
Proof.
  induction items as [|[key seq] rest IH]; simpl; [lia|].
  assert (0 <= value_len seq) by (destruct seq; apply len_nonneg). lia.
Qed.

Lemma data_len_perm items items' :
  Permutation items items' -> data_len items = data_len items'.
Proof. induction 1; simpl; lia. Qed.

Lemma forallb_Forall {A} (f : A -> bool) (P : A -> Prop) l :
  (forall x, f x = true <-> P x) -> forallb f l = true <-> Forall P l.
Proof.
  intros H. induction l as [|x l IH]; simpl.
  - split; [constructor|reflexivity].
  - rewrite andb_true_iff, H, IH. split.
    + intros [? ?]. now constructor.
    + intros HF. now apply Forall_cons in HF.
Qed.

Lemma encode_ascii_ok s :
  Forall (fun c => 0 <= c < 128) s -> encode_ascii s = Ok (map byte.of_Z s).
Proof.
  intros H. unfold encode_ascii.
  assert (forallb (fun c => (0 <=? c) && (c <? 128)) s = true) as ->; [|reflexivity].
  apply (forallb_Forall _ (fun c => 0 <= c < 128)); [|assumption].
  intros c. rewrite andb_true_iff, Z.leb_le, Z.ltb_lt. reflexivity.
Qed.

Lemma decode_ascii_ok v :
  Forall (fun x => byte.unsigned x < 128) v ->
  decode_ascii v = Ok (map byte.unsigned v).
Proof.
  intros H. unfold decode_ascii.
  assert (forallb (fun x => byte.unsigned x <? 128) v = true) as ->; [|reflexivity].
  apply (forallb_Forall _ (fun x => byte.unsigned x < 128)); [|assumption].
  intros x. apply Z.ltb_lt.
Qed.

Lemma decode_ascii_raise v :
  Exists (fun x => 128 <= byte.unsigned x) v ->
  decode_ascii v = Raise UnicodeDecodeError.
Proof.
  intros H. unfold decode_ascii.
  destruct (forallb (fun x => byte.unsigned x <? 128) v) eqn:E; [|reflexivity].
  apply (forallb_Forall _ (fun x => byte.unsigned x < 128)) in E;
    [|intros x; apply Z.ltb_lt].
  apply Exists_exists in H as (x & Hx & Hge).
  rewrite Forall_forall in E. specialize (E x Hx). cbn beta in E, Hge. lia.
Qed.

(** An ASCII value is stored as bytes that decode to its text. *)
Lemma ascii_value_roundtrip seq v :
  ascii_value seq -> seq_to_bytes seq = Ok v ->
  decode_ascii v = Ok (value_text seq) /\ len v = value_len seq.
Proof.
  destruct seq as [s|v']; cbn [ascii_value seq_to_bytes value_text value_len];
    intros Ha Hv.
  - rewrite (encode_ascii_ok _ Ha) in Hv. injection Hv as <-. split.
    + rewrite decode_ascii_ok.
      * f_equal. rewrite map_map. rewrite <- (map_id s) at 2.
        apply map_ext_Forall. eapply Forall_impl; [exact Ha|].
        intros c Hc. cbn beta. rewrite byte.unsigned_of_Z. unfold byte.wrap.
        change (2 ^ 8) with 256. cbn beta in Hc. apply Z.mod_small. lia.
      * apply Forall_forall. intros x Hx.
        apply list_elem_of_In, in_map_iff in Hx as (c & <- & Hc).
        rewrite Forall_forall in Ha. apply list_elem_of_In in Hc.
        specialize (Ha c Hc). rewrite byte.unsigned_of_Z. unfold byte.wrap.
        change (2 ^ 8) with 256. cbn beta in Ha. rewrite Z.mod_small; lia.
    + unfold len. now rewrite length_map.
  - injection Hv as <-. split; [now apply decode_ascii_ok|reflexivity].
Qed.

Lemma seq_to_bytes_ascii seq :
  ascii_value seq -> exists v, seq_to_bytes seq = Ok v /\ len v = value_len seq.
Proof.
  destruct seq as [s|v]; cbn [ascii_value seq_to_bytes value_len]; intros Ha.
  - rewrite (encode_ascii_ok _ Ha). eexists. split; [reflexivity|].
    unfold len. now rewrite length_map.
  - eauto.
Qed.

(** Items whose values fit: the write loop packs them all. *)
Lemma pack_items_fits key_size items : forall offset,
  Forall (bytes_key key_size) items ->
  Forall (fun it => ascii_value (snd it)) items ->
  Forall (fun it => value_len (snd it) < 2 ^ 32) items ->
  0 <= offset -> offset + data_len items < 2 ^ 64 ->
  exists recs,
    pack_items items offset = Ok recs /\
    len (data_bytes recs) = data_len items.
Proof.
  induction items as [|[key seq] rest IH]; intros offset Hk Ha Hl Ho Ht.
  - exists []. split; reflexivity.
  - apply Forall_cons in Hk as [[Hk0 _] Hk].
    apply Forall_cons in Ha as [Ha0 Ha].
    apply Forall_cons in Hl as [Hl0 Hl].
    cbn [fst snd] in Hk0, Ha0, Hl0. cbn [data_len fold_right snd] in Ht.
    fold (data_len rest) in Ht.
    destruct (seq_to_bytes_ascii _ Ha0) as (v & Hv & Hlen).
    pose proof (data_len_nonneg rest) as Hnn.
    pose proof (len_nonneg v) as Hvn.
    destruct (IH (offset + len v) Hk Ha Hl) as (recs & Hp & Hd); [lia|lia|].
    cbn [pack_items]. rewrite Hv, Hk0. cbn [rbind py_bytes].
    unfold OFFSET_STRUCT.pack.
    rewrite (pack_uint_fits 8 offset) by (change (2 ^ (8 * Z.of_nat 8)) with (2 ^ 64); lia).
    rewrite (pack_uint_fits 4 (len v))
      by (change (2 ^ (8 * Z.of_nat 4)) with (2 ^ 32); lia).
    cbn [rbind]. rewrite Hp. cbn [rbind].
    eexists. split; [reflexivity|].
    cbn [data_bytes flat_map]. fold (data_bytes recs).
    rewrite len_app, Hd. cbn [data_len fold_right snd]. fold (data_len rest). lia.
Qed.

(** * What the builder does to the files *)

(** C7: called with an empty mapping, [build_sequence_store] returns
    successfully and performs no I/O: the world it returns is the world it
    was given, with the same files and no open, write or close logged, so no
    index file and no data file is created or overwritten. *)
Theorem build_empty_no_io index_folder basename w :
  build_sequence_store index_folder basename [] w = (Ok tt, w).
Proof. reflexivity. Qed.

Lemma valid_not_invalid key_size seq_dict :
  Forall (bytes_key key_size) seq_dict -> ~ invalid_keys seq_dict.
Proof.
  intros Hk. rewrite Forall_forall in Hk.
  intros [(key & seq & Hin & Hb)|(k1 & s1 & k2 & s2 & H1 & H2 & Hne)].
  - apply list_elem_of_In in Hin. destruct (Hk _ Hin) as [Hf _].
    cbn [fst] in Hf. rewrite Hf in Hb. discriminate.
  - apply list_elem_of_In in H1, H2.
    destruct (Hk _ H1) as [_ Hl1]. destruct (Hk _ H2) as [_ Hl2].
    unfold key_of in Hl1, Hl2. cbn [fst] in Hl1, Hl2. congruence.
Qed.

(** C6: on a non-empty mapping in which some key is not a byte sequence, or
    in which two keys have different lengths, [build_sequence_store] raises a
    [ValueError] whose message ends with the name of the store, and it does so
    before any file is opened or written: the world is left as it was. *)
Theorem build_invalid_key index_folder basename seq_dict w :
  seq_dict <> [] ->
  invalid_keys seq_dict ->
  exists reason,
    build_sequence_store index_folder basename seq_dict w =
      (Raise (ValueError (String.append reason basename)), w).
Proof.
  destruct seq_dict as [|[first_key v0] rest]; [contradiction|]. intros _ Hinv.
  destruct (is_bytes_like first_key) eqn:Hb.
  - destruct first_key as [|s|k0]; try discriminate.
    destruct (check_keys basename (len k0) ((PyBytes k0, v0) :: rest)) as [[]|e] eqn:Hc.
    + apply check_keys_ok in Hc. now apply valid_not_invalid in Hc.
    + assert (build_sequence_store index_folder basename ((PyBytes k0, v0) :: rest) w
              = (Raise e, w)) as ->.
      { unfold build_sequence_store, bind, lift. cbn [is_bytes_like negb py_len].
        now rewrite Hc. }
      destruct (check_keys_raise _ _ _ _ Hc) as [->| ->]; eexists; reflexivity.
  - unfold build_sequence_store. rewrite Hb. eexists. reflexivity.
Qed.

Lemma build_invalid_key_witness :
  exists reason,
    build_sequence_store "dir" "seqs"
      [ (PyBytes (b "AAAA"), SeqStr (text "hello"));
        (PyBytes (b "ZZ"), SeqStr (text "world")) ] world0 =
      (Raise (ValueError (String.append reason "seqs")), world0).
Proof.
  apply build_invalid_key; [discriminate|].
  right. exists (b "AAAA"), (SeqStr (text "hello")), (b "ZZ"), (SeqStr (text "world")).
  split; [now left|]. split; [right; now left|]. vm_compute. discriminate.
Defined.

(** C8, as stated, fails: building a one-record store writes the index
    header before the value bytes reach the data file. *)
Lemma writes_interleave_counterexample :
  ~ data_written_first (data_path_of "dir" "seqs") (index_path_of "dir" "seqs")
      (w_trace (snd (build_sequence_store "dir" "seqs"
                       [(PyBytes (b "k"), SeqBytes (b "v"))] world0))).
Proof.
  intros H.
  specialize (H 2%nat 3%nat
                (MAGIC ++ le_split 4 1 ++ le_split 8 1) (b "v") eq_refl eq_refl).
  lia.
Qed.

(** C8, amended: a non-empty build that runs to its end opens the data file
    first and the index file second, writes the index header before any
    value, and then, record by record in sorted key order, writes the value
    to the data file and after it the key and the packed offset and length
    to the index file; it closes the index file before the data file.  The
    data file then holds the values in that order and the index file the
    header followed by the records. *)
Theorem build_write_order index_folder basename seq_dict w w1 :
  seq_dict <> [] ->
  build_sequence_store index_folder basename seq_dict w = (Ok tt, w1) ->
  let data_path := data_path_of index_folder basename in
  let index_path := index_path_of index_folder basename in
  exists key_size header recs,
    HEADER_STRUCT.pack MAGIC key_size (len (sorted_items seq_dict)) = Ok header /\
    pack_items (sorted_items seq_dict) 0 = Ok recs /\
    w_trace w1 =
      w_trace w ++
      [EvOpen data_path; EvOpen index_path; EvWrite index_path header] ++
      flat_map (fun '(v, k, r) =>
                  [EvWrite data_path v; EvWrite index_path k; EvWrite index_path r])
               recs ++
      [EvClose index_path; EvClose data_path] /\
    w_files w1 !! data_path = Some (flat_map (fun '(v, _, _) => v) recs) /\
    w_files w1 !! index_path =
      Some (header ++ flat_map (fun '(_, k, r) => k ++ r) recs).
Proof.
  intros Hne Hbuild data_path index_path.
  destruct (build_ok_inv _ _ _ _ _ Hne Hbuild)
    as (key_size & header & recs & Hk & Hh & Hp & ->).
  pose proof (paths_differ index_folder basename) as Hpaths.
  exists key_size, header, recs.
  split; [assumption|]. split; [assumption|]. split; [reflexivity|].
  unfold built_world. cbn [w_files]. split.
  - rewrite lookup_insert_ne by (unfold data_path, index_path; congruence).
    now rewrite lookup_insert_eq.
  - now rewrite lookup_insert_eq.
Qed.

Lemma build_write_order_witness :
  exists key_size header recs,
    HEADER_STRUCT.pack MAGIC key_size (len (sorted_items scenario)) = Ok header /\
    pack_items (sorted_items scenario) 0 = Ok recs /\
    w_trace (snd (build_sequence_store "dir" "seqs" scenario world0)) =
      w_trace world0 ++
      [EvOpen (data_path_of "dir" "seqs"); EvOpen (index_path_of "dir" "seqs");
       EvWrite (index_path_of "dir" "seqs") header] ++
      flat_map (fun '(v, k, r) =>
                  [EvWrite (data_path_of "dir" "seqs") v;
                   EvWrite (index_path_of "dir" "seqs") k;
                   EvWrite (index_path_of "dir" "seqs") r])
               recs ++
      [EvClose (index_path_of "dir" "seqs"); EvClose (data_path_of "dir" "seqs")] /\
    w_files (snd (build_sequence_store "dir" "seqs" scenario world0))
      !! data_path_of "dir" "seqs" = Some (flat_map (fun '(v, _, _) => v) recs) /\
    w_files (snd (build_sequence_store "dir" "seqs" scenario world0))
      !! index_path_of "dir" "seqs" =
      Some (header ++ flat_map (fun '(_, k, r) => k ++ r) recs).
Proof.
  apply (build_write_order "dir" "seqs" scenario world0); [discriminate|].
  vm_compute. reflexivity.
Defined.

(** * The reader on a built store *)

(** C2: in a store built from a mapping with distinct keys and opened,
    [__contains__] is true for exactly the keys of the mapping; on every
    other query, whether a byte sequence of the same or of another length or
    no byte sequence at all, [_find_index] returns -1 (a miss, not an
    error) and [__contains__] is false. *)
Theorem contains_exactly_the_keys index_folder basename seq_dict w self :
  seq_dict <> [] ->
  NoDup (map fst seq_dict) ->
  built_store index_folder basename seq_dict w self ->
  forall query,
    (__contains__ self query = true <-> In query (map fst seq_dict)) /\
    (~ In query (map fst seq_dict) ->
       _find_index self query = -1 /\ __contains__ self query = false).
Proof.
  intros Hne Hnd Hbuilt query.
  destruct (built_store_layout _ _ _ _ _ Hne Hnd Hbuilt) as (recs & Hp & Hk & Hl).
  destruct (records_of_items _ _ Hp) as [Hin Hrec].
  assert ((0 <= _find_index self query /\ In query (map fst seq_dict)) \/
          (_find_index self query = -1 /\ ~ In query (map fst seq_dict))) as Hcases.
  { assert (forall kb, In (PyBytes kb) (map fst seq_dict) ->
            exists n v r, recs !! n = Some (v, kb, r)) as Hkeys.
    { intros kb Hq. apply in_map_iff in Hq as ([key seq] & Hf & Hq).
      cbn [fst] in Hf. subst key.
      destruct (Hin _ _ Hq) as (n & v & k & r & Hn & [= ->] & _). eauto. }
    assert (forall key, In key (map fst seq_dict) -> is_bytes_like key = true)
      as Hbytes.
    { intros key Hq. apply in_map_iff in Hq as ([key' seq] & Hf & Hq).
      cbn [fst] in Hf. subst key'.
      destruct (Hin _ _ Hq) as (n & v & k & r & _ & -> & _). reflexivity. }
    destruct query as [|s|kb].
    - right. split; [reflexivity|]. intros Hq. now apply Hbytes in Hq.
    - right. split; [reflexivity|]. intros Hq. now apply Hbytes in Hq.
    - destruct (Z.eq_dec (len kb) (_key_size self)) as [Hlen|Hlen].
      + destruct (find_index_bytes _ _ Hl kb Hlen)
          as [[-> Hno]|(n & rec & -> & Hn & Hkey)].
        * right. split; [reflexivity|]. intros Hq.
          destruct (Hkeys _ Hq) as (n & v & r & Hn).
          apply (Hno (v, kb, r)); [|reflexivity].
          apply list_elem_of_lookup. eauto.
        * left. split; [lia|]. destruct rec as [[v k] r].
          destruct (Hrec _ _ _ _ Hn) as (seq & Hs & _).
          apply in_map_iff. exists (PyBytes k, seq). split; [|assumption].
          cbn [fst]. f_equal. exact Hkey.
      + right. split.
        * apply find_index_reject. intros kb' [= <-]. exact Hlen.
        * intros Hq. destruct (Hkeys _ Hq) as (n & v & r & Hn).
          apply Hlen. eapply record_key_len; eassumption. }
  unfold __contains__.
  destruct Hcases as [[Hge Hq]|[Hm Hq]].
  - split; [split; [auto|]|contradiction].
    intros _. apply Z.geb_le. lia.
  - rewrite Hm. split; [split; [discriminate|contradiction]|]. auto.
Qed.

(** ** The store of the three-record scenario *)

Lemma scenario_nodup : NoDup (map fst scenario).
Proof. distinct_keys. Qed.

Lemma scenario_built : built_store "dir" "seqs" scenario world0 scenario_self.
Proof.
  exists scenario_world, (mapped scenario_world).
  split; vm_compute; reflexivity.
Qed.

Lemma contains_exactly_the_keys_witness :
  (__contains__ scenario_self (PyBytes (b "MMMM")) = true <->
   In (PyBytes (b "MMMM")) (map fst scenario)) /\
  (~ In (PyBytes (b "MMMM")) (map fst scenario) ->
     _find_index scenario_self (PyBytes (b "MMMM")) = -1 /\
     __contains__ scenario_self (PyBytes (b "MMMM")) = false).
Proof.
  apply (contains_exactly_the_keys "dir" "seqs" scenario world0).
  - discriminate.
  - exact scenario_nodup.
  - exact scenario_built.
Defined.

Example scenario_miss :
  __contains__ scenario_self (PyBytes (b "AAAB")) = false /\
  __contains__ scenario_self (PyBytes (b "AAA")) = false /\
  __contains__ scenario_self (PyStr (text "AAAA")) = false /\
  get scenario_self (PyBytes (b "MMMM")) PyNone = Ok (PyStr (text "mid")) /\
  __len__ scenario_self = 3.
Proof. vm_compute. repeat split. Qed.

(** C9: in the index file that [build_sequence_store] leaves for a mapping
    with distinct keys, the key stored at record [i] is strictly smaller, in
    unsigned lexicographic byte order, than the key stored at record [i + 1],
    for every [i] with both records among the [count] records of the header. *)
Theorem keys_strictly_increasing index_folder basename seq_dict w w1 :
  seq_dict <> [] ->
  NoDup (map fst seq_dict) ->
  build_sequence_store index_folder basename seq_dict w = (Ok tt, w1) ->
  let index_path := index_path_of index_folder basename in
  let data_path := data_path_of index_folder basename in
  exists ibuf dbuf key_size count,
    w_files w1 !! index_path = Some ibuf /\
    w_files w1 !! data_path = Some dbuf /\
    HEADER_STRUCT.unpack_from ibuf 0 = Ok (MAGIC, key_size, count) /\
    count = len seq_dict /\
    forall i, 0 <= i -> i + 1 < count ->
      let self := opened_store index_path data_path w1 ibuf dbuf key_size count in
      bytes_compare (_key_at self i) (_key_at self (i + 1)) = Lt.
Proof.
  intros Hne Hnd Hbuild index_path data_path.
  destruct (build_layout _ _ _ _ _ Hne Hnd Hbuild)
    as (key_size & header & recs & Hp & Hk & Hi & Hd & Hu & Hlayout).
  exists (header ++ index_records recs), (data_bytes recs), key_size, (len recs).
  split; [assumption|]. split; [assumption|]. split; [assumption|].
  split.
  { unfold len. rewrite (pack_items_length _ _ _ Hp).
    now rewrite (Permutation_length (sorted_items_perm seq_dict)). }
  intros i H0 Hi1 self.
  apply (key_at_increasing self recs (Hlayout w1)); [assumption|lia|].
  exact Hi1.
Qed.

Lemma keys_strictly_increasing_witness :
  exists ibuf dbuf key_size count,
    w_files scenario_world !! index_path_of "dir" "seqs" = Some ibuf /\
    w_files scenario_world !! data_path_of "dir" "seqs" = Some dbuf /\
    HEADER_STRUCT.unpack_from ibuf 0 = Ok (MAGIC, key_size, count) /\
    count = len scenario /\
    forall i, 0 <= i -> i + 1 < count ->
      let self := opened_store (index_path_of "dir" "seqs")
                    (data_path_of "dir" "seqs") scenario_world ibuf dbuf
                    key_size count in
      bytes_compare (_key_at self i) (_key_at self (i + 1)) = Lt.
Proof.
  apply (keys_strictly_increasing "dir" "seqs" scenario world0).
  - discriminate.
  - exact scenario_nodup.
  - vm_compute. reflexivity.
Defined.

(** On a built store the search misses every query that is no key of the
    mapping. *)
Lemma find_index_not_a_key index_folder basename seq_dict w self query :
  seq_dict <> [] ->
  NoDup (map fst seq_dict) ->
  built_store index_folder basename seq_dict w self ->
  ~ In query (map fst seq_dict) ->
  _find_index self query = -1.
Proof.
  intros Hne Hnd Hbuilt Hnotin.
  destruct (built_store_layout _ _ _ _ _ Hne Hnd Hbuilt) as (recs & Hp & Hk & Hl).
  destruct query as [|s|key_bytes];
    try (apply (find_index_reject self); intros ? [=]; fail).
  destruct (decide (len key_bytes = _key_size self)) as [Hlen|Hlen].
  - destruct (find_index_bytes self recs Hl key_bytes Hlen)
      as [[H _]|(n & [[v k] r] & _ & Hn & Hkey)]; [exact H|].
    exfalso. cbn [rec_key fst snd] in Hkey. subst k.
    destruct (proj2 (records_of_items _ _ Hp) _ _ _ _ Hn) as (seq & Hin & _).
    apply Hnotin, in_map_iff. exists (PyBytes key_bytes, seq). now split.
  - apply (find_index_reject self). now intros ? [= <-].
Qed.

(** C10: in a store built from a mapping with distinct keys and opened, a
    key whose value is empty is found, and is told apart from a missing
    key.  For the key, [get] returns the empty text whatever the default,
    and [__getitem__] returns the empty text and raises no [KeyError].  For
    a query that is no key of the mapping, [get] returns the default and
    [__getitem__] raises [KeyError].  So the two differ under [__getitem__],
    and under [get] for every default other than the empty text. *)
Theorem empty_value_is_found index_folder basename seq_dict w self key seq :
  seq_dict <> [] ->
  NoDup (map fst seq_dict) ->
  built_store index_folder basename seq_dict w self ->
  In (key, seq) seq_dict ->
  empty_value seq ->
  (forall default, get self key default = Ok (PyStr [])) /\
  __getitem__ self key = Ok (PyStr []) /\
  forall query, ~ In query (map fst seq_dict) ->
    (forall default, get self query default = Ok default) /\
    __getitem__ self query = Raise (KeyError query) /\
    (forall default, default <> PyStr [] ->
       get self key default <> get self query default) /\
    __getitem__ self key <> __getitem__ self query.
Proof.
  intros Hne Hnd Hbuilt Hin Hempty.
  destruct (built_store_layout _ _ _ _ _ Hne Hnd Hbuilt) as (recs & Hp & Hk & Hl).
  destruct (proj1 (records_of_items _ _ Hp) _ _ Hin)
    as (n & v & k & r & Hn & -> & Hv).
  assert (v = []) as ->.
  { destruct Hempty as [-> | ->]; cbn in Hv; now injection Hv. }
  assert (forall default, get self (PyBytes k) default = Ok (PyStr [])) as Hget.
  { intros default. now rewrite (get_record _ _ Hl _ _ _ _ default Hn). }
  assert (__getitem__ self (PyBytes k) = Ok (PyStr [])) as Hitem.
  { unfold __getitem__. now rewrite Hget. }
  split; [exact Hget|]. split; [exact Hitem|].
  intros query Hnotin.
  pose proof (find_index_not_a_key _ _ _ _ _ query Hne Hnd Hbuilt Hnotin) as Hmiss.
  assert (forall default, get self query default = Ok default) as Hdefault.
  { intros default. unfold get. now rewrite Hmiss. }
  assert (__getitem__ self query = Raise (KeyError query)) as Hraise.
  { unfold __getitem__. now rewrite Hdefault. }
  split; [exact Hdefault|]. split; [exact Hraise|]. split.
  - intros default Hd. rewrite Hget, Hdefault. intros [= E]. now apply Hd.
  - rewrite Hitem, Hraise. discriminate.
Qed.

Lemma empty_value_is_found_witness :
  (forall default, get with_empty_self (PyBytes (b "aa")) default = Ok (PyStr [])) /\
  __getitem__ with_empty_self (PyBytes (b "aa")) = Ok (PyStr []) /\
  forall query, ~ In query (map fst with_empty) ->
    (forall default, get with_empty_self query default = Ok default) /\
    __getitem__ with_empty_self query = Raise (KeyError query) /\
    (forall default, default <> PyStr [] ->
       get with_empty_self (PyBytes (b "aa")) default <>
       get with_empty_self query default) /\
    __getitem__ with_empty_self (PyBytes (b "aa")) <>
    __getitem__ with_empty_self query.
Proof.
  apply (empty_value_is_found "dir" "seqs" with_empty world0 with_empty_self
           (PyBytes (b "aa")) (SeqBytes [])).
  - discriminate.
  - distinct_keys.
  - exists with_empty_world, (mapped with_empty_world).
    split; vm_compute; reflexivity.
  - right. now left.
  - now right.
Defined.

(** The missing-key half on the store of [with_empty]: the key [cc] is no
    key, and is told apart from the key [aa], whose value is empty. *)
Example empty_value_differs_from_missing :
  get with_empty_self (PyBytes (b "aa")) PyNone = Ok (PyStr []) /\
  get with_empty_self (PyBytes (b "cc")) PyNone = Ok PyNone /\
  __getitem__ with_empty_self (PyBytes (b "aa")) = Ok (PyStr []) /\
  __getitem__ with_empty_self (PyBytes (b "cc")) = Raise (KeyError (PyBytes (b "cc"))).
Proof. repeat split; vm_compute; reflexivity. Qed.

(** * The round trip *)

(** A mapping whose keys and values fit the index fields is built. *)
Lemma build_succeeds index_folder basename seq_dict key_size w :
  seq_dict <> [] ->
  Forall (bytes_key key_size) seq_dict ->
  key_size < 2 ^ 32 ->
  Forall (fun it => ascii_value (snd it)) seq_dict ->
  Forall (fun it => value_len (snd it) < 2 ^ 32) seq_dict ->
  len seq_dict < 2 ^ 64 ->
  data_len seq_dict < 2 ^ 64 ->
  exists header recs,
    pack_items (sorted_items seq_dict) 0 = Ok recs /\
    len (data_bytes recs) = data_len seq_dict /\
    build_sequence_store index_folder basename seq_dict w =
      (Ok tt, built_world w (data_path_of index_folder basename)
                          (index_path_of index_folder basename) header recs).
Proof.
  intros Hne Hk Hks Ha Hl Hcnt Hdata.
  pose proof (sorted_items_perm seq_dict) as Hperm.
  destruct (pack_items_fits key_size (sorted_items seq_dict) 0) as (recs & Hp & Hd).
  { now rewrite Hperm. }
  { now rewrite Hperm. }
  { now rewrite Hperm. }
  { lia. }
  { rewrite (data_len_perm _ _ Hperm). lia. }
  rewrite (data_len_perm _ _ Hperm) in Hd.
  destruct seq_dict as [|[first_key v0] rest]; [contradiction|].
  pose proof Hk as Hk0. apply Forall_cons in Hk0 as [[Hf Hlen] _].
  cbn [fst] in Hf.
  assert (HEADER_STRUCT.pack MAGIC key_size
            (len (sorted_items ((first_key, v0) :: rest))) =
          Ok (resize 8 "000"%byte MAGIC ++ le_split 4 key_size ++
              le_split 8 (len (sorted_items ((first_key, v0) :: rest))))) as Hh.
  { unfold HEADER_STRUCT.pack.
    rewrite (pack_uint_fits 4 key_size).
    - rewrite (pack_uint_fits 8); [reflexivity|].
      unfold len at 1 2. rewrite (Permutation_length Hperm).
      change (2 ^ (8 * Z.of_nat 8)) with (2 ^ 64). unfold len in Hcnt. lia.
    - change (2 ^ (8 * Z.of_nat 4)) with (2 ^ 32). rewrite <- Hlen.
      pose proof (len_nonneg (key_of (first_key, v0))). lia. }
  eexists. exists recs. split; [assumption|]. split; [assumption|].
  eapply build_run; try eassumption.
  - now rewrite Hf.
  - rewrite Hf. cbn [py_len]. now rewrite Hlen.
  - now apply check_keys_ok.
  - now apply (items_sort_ok key_size).
Qed.

(** C1, as stated, fails.  A text value with a character outside ASCII
    cannot be encoded, and the build of the mapping raises.  And a value
    given as a byte sequence, here the ASCII byte [A], does not come back as
    it was given: [get] returns a text, which is not the byte sequence. *)
Lemma roundtrip_counterexample :
  (latin_text <> [] /\ Forall (bytes_key 1) latin_text /\
   fst (build_sequence_store "dir" "seqs" latin_text world0) =
     Raise UnicodeEncodeError) /\
  (built_store "dir" "seqs" ascii_bytes world0 ascii_bytes_self /\
   get ascii_bytes_self (PyBytes (b "k")) PyNone = Ok (PyStr (text "A")) /\
   get ascii_bytes_self (PyBytes (b "k")) PyNone <>
     Ok (value_obj (SeqBytes (b "A")))).
Proof.
  split.
  - split; [discriminate|]. split; [repeat constructor|].
    vm_compute. reflexivity.
  - split.
    + exists (built ascii_bytes), (mapped (built ascii_bytes)).
      split; vm_compute; reflexivity.
    + split; [vm_compute; reflexivity|]. vm_compute. discriminate.
Qed.

(** A store whose values are all empty is built, but its empty data file
    cannot be mapped: [__init__] raises. *)
Example all_values_empty_cannot_be_opened :
  let seq_dict := [(PyBytes (b "k"), SeqBytes [])] in
  let w1 := snd (build_sequence_store "dir" "seqs" seq_dict world0) in
  fst (build_sequence_store "dir" "seqs" seq_dict world0) = Ok tt /\
  fst (__init__ (index_path_of "dir" "seqs") (data_path_of "dir" "seqs") w1) =
    Raise (ValueError "cannot mmap an empty file").
Proof. split; vm_compute; reflexivity. Qed.

(** C1, amended: for every non-empty mapping with distinct keys that are
    byte sequences of one common length below 2^32, whose values, text or
    bytes, hold only characters in 0..127, each shorter than 2^32, not all
    empty, and together shorter than 2^64, with fewer than 2^64 entries:
    [build_sequence_store] succeeds, [__init__] opens the pair of files it
    wrote, and [get] on each key of the mapping returns the key's value as
    text: the text itself for a value given as text, and for a value given
    as bytes the text whose character codes are its bytes. *)
Theorem roundtrip_ascii index_folder basename seq_dict key_size w :
  seq_dict <> [] ->
  NoDup (map fst seq_dict) ->
  Forall (bytes_key key_size) seq_dict ->
  key_size < 2 ^ 32 ->
  Forall (fun it => ascii_value (snd it)) seq_dict ->
  Forall (fun it => value_len (snd it) < 2 ^ 32) seq_dict ->
  len seq_dict < 2 ^ 64 ->
  0 < data_len seq_dict < 2 ^ 64 ->
  exists self,
    built_store index_folder basename seq_dict w self /\
    forall key seq default,
      In (key, seq) seq_dict ->
      get self key default = Ok (PyStr (value_text seq)).
Proof.
  intros Hne Hnd Hk Hks Ha Hl Hcnt [Hpos Hdata].
  destruct (build_succeeds index_folder basename _ _ w Hne Hk Hks Ha Hl Hcnt Hdata)
    as (header & recs & Hp & Hd & Hbuild).
  destruct (build_layout _ _ _ _ _ Hne Hnd Hbuild)
    as (key_size' & header' & recs' & Hp' & _ & Hi & Hdf & Hu & Hlayout).
  rewrite Hp in Hp'. injection Hp' as <-.
  set (w1 := built_world w (data_path_of index_folder basename)
               (index_path_of index_folder basename) header recs) in *.
  assert (header' ++ index_records recs <> []) as Hin.
  { intros E. unfold HEADER_STRUCT.unpack_from, unpack_base in Hu.
    rewrite E in Hu. discriminate. }
  assert (data_bytes recs <> []) as Hdn.
  { intros E. rewrite E in Hd. change (len (@nil byte)) with 0 in Hd. lia. }
  pose proof (init_run _ _ _ _ _ Hi Hdf Hin Hdn) as Hinit.
  rewrite Hu, bytes_compare_refl_eqb in Hinit. cbn [negb] in Hinit.
  eexists. split.
  - exists w1, (mapped w1). split; [exact Hbuild|exact Hinit].
  - intros key seq default Hq.
    destruct (proj1 (records_of_items _ _ Hp) _ _ Hq)
      as (n & v & k & r & Hn & -> & Hv).
    rewrite (get_record _ _ (Hlayout w1) _ _ _ _ default Hn).
    assert (ascii_value seq) as Hseq.
    { rewrite Forall_forall in Ha. apply (Ha (PyBytes k, seq)).
      now apply list_elem_of_In. }
    destruct (ascii_value_roundtrip _ _ Hseq Hv) as [-> _]. reflexivity.
Qed.

Lemma roundtrip_ascii_witness :
  exists self,
    built_store "dir" "seqs" scenario world0 self /\
    forall key seq default,
      In (key, seq) scenario ->
      get self key default = Ok (PyStr (value_text seq)).
Proof.
  apply (roundtrip_ascii "dir" "seqs" scenario 4 world0).
  - discriminate.
  - exact scenario_nodup.
  - repeat constructor.
  - reflexivity.
  - repeat constructor; vm_compute; congruence.
  - repeat constructor.
  - reflexivity.
  - split; reflexivity.
Defined.

(** C3, as stated, fails: a one-byte value [0x80] given as bytes is built
    and opened, but [get] on its key raises instead of returning it. *)
Lemma high_byte_counterexample :
  build_sequence_store "dir" "seqs" high_byte world0 = (Ok tt, high_byte_world) /\
  __init__ (index_path_of "dir" "seqs") (data_path_of "dir" "seqs") high_byte_world =
    (Ok high_byte_self, mapped high_byte_world) /\
  get high_byte_self (PyBytes (b "k")) PyNone = Raise UnicodeDecodeError.
Proof.
  split; [vm_compute; reflexivity|].
  split; [vm_compute; reflexivity|].
  vm_compute. reflexivity.
Qed.

(** C3, amended: in a store built from a mapping with distinct keys and
    opened, a value given as a byte sequence with a byte outside 0..127 is
    stored unchanged in the data file, at the offset and with the length
    that the record of its key holds, but [get] on its key raises
    [UnicodeDecodeError] whatever the default: [get] decodes every stored
    value as ASCII and has no raw-bytes result. *)
Theorem high_bytes_stored_not_returned index_folder basename seq_dict w self key v :
  seq_dict <> [] ->
  NoDup (map fst seq_dict) ->
  built_store index_folder basename seq_dict w self ->
  In (key, SeqBytes v) seq_dict ->
  Exists (fun x => 128 <= byte.unsigned x) v ->
  (forall default, get self key default = Raise UnicodeDecodeError) /\
  exists offset,
    _offset_and_length self (_find_index self key) = Ok (offset, len v) /\
    slice (mm_buf (_data_mm self)) offset (offset + len v) = v.
Proof.
  intros Hne Hnd Hbuilt Hin Hhigh.
  destruct (built_store_layout _ _ _ _ _ Hne Hnd Hbuilt) as (recs & Hp & Hk & Hl).
  destruct (proj1 (records_of_items _ _ Hp) _ _ Hin)
    as (n & v' & k & r & Hn & -> & [= <-]).
  split.
  - intros default. rewrite (get_record _ _ Hl _ _ _ _ default Hn).
    now rewrite decode_ascii_raise.
  - exists (len (data_bytes (take n recs))).
    rewrite (find_index_record _ _ Hl _ _ _ _ Hn).
    split; [eapply offset_and_length_record; eassumption|].
    eapply data_slice_record; eassumption.
Qed.

Lemma high_bytes_stored_not_returned_witness :
  (forall default,
     get with_high_byte_self (PyBytes (b "aa")) default = Raise UnicodeDecodeError) /\
  exists offset,
    _offset_and_length with_high_byte_self
      (_find_index with_high_byte_self (PyBytes (b "aa"))) =
      Ok (offset, len [Byte.xff; Byte.x41]) /\
    slice (mm_buf (_data_mm with_high_byte_self)) offset
          (offset + len [Byte.xff; Byte.x41]) = [Byte.xff; Byte.x41].
Proof.
  apply (high_bytes_stored_not_returned "dir" "seqs" with_high_byte world0).
  - discriminate.
  - distinct_keys.
  - exists with_high_byte_world, (mapped with_high_byte_world).
    split; vm_compute; reflexivity.
  - right. now left.
  - constructor. vm_compute. discriminate.
Defined.

(** * Resources *)

(** C4: an index file of at least a header's length whose first 8 bytes are
    not the magic tag, next to a data file that can be mapped, makes
    [__init__] raise a [ValueError] naming the index path; that exit path
    releases nothing: the two file objects and the two mappings that
    [__init__] opened, the four identifiers from [w_next w] on, are all
    still live afterwards. *)
Theorem bad_magic_raises_and_leaks index_path data_path w ibuf dbuf :
  w_files w !! index_path = Some ibuf ->
  w_files w !! data_path = Some dbuf ->
  dbuf <> [] ->
  HEADER_STRUCT.size <= len ibuf ->
  take 8 ibuf <> MAGIC ->
  exists w',
    __init__ index_path data_path w =
      (Raise (ValueError (String.append "Invalid mmap index file magic: " index_path)),
       w') /\
    w_next w ∈ w_live w' /\
    S (w_next w) ∈ w_live w' /\
    S (S (w_next w)) ∈ w_live w' /\
    S (S (S (w_next w))) ∈ w_live w'.
Proof.
  intros Hi Hd Hdn Hlen Hmagic.
  assert (ibuf <> []) as Hin.
  { intros ->. change (len (@nil byte)) with 0 in Hlen.
    unfold HEADER_STRUCT.size in Hlen. lia. }
  exists (mapped w). rewrite (init_run _ _ _ _ _ Hi Hd Hin Hdn).
  unfold HEADER_STRUCT.unpack_from, unpack_base.
  destruct (Z.ltb_spec 0 0); [lia|].
  destruct (Z.leb_spec 0 0); [|lia].
  destruct (Z.leb_spec (0 + HEADER_STRUCT.size) (len ibuf)); [|lia].
  cbn [andb rbind]. change (Z.to_nat 0) with 0%nat. rewrite drop_0.
  destruct (bytes_eqb (take 8 ibuf) MAGIC) eqn:E.
  - apply bytes_eqb_eq in E. contradiction.
  - cbn [negb]. split; [reflexivity|].
    unfold mapped. cbn [w_live]. repeat split; set_solver.
Qed.

Lemma bad_magic_raises_and_leaks_witness :
  exists w',
    __init__ "seqs.mmidx" "seqs.mmdata" bad_magic_world =
      (Raise (ValueError "Invalid mmap index file magic: seqs.mmidx"), w') /\
    0%nat ∈ w_live w' /\ 1%nat ∈ w_live w' /\ 2%nat ∈ w_live w' /\ 3%nat ∈ w_live w'.
Proof.
  apply (bad_magic_raises_and_leaks "seqs.mmidx" "seqs.mmdata" bad_magic_world
           (b "XLTRAMM1" ++ le_split 4 4 ++ le_split 8 0) (b "x")).
  - reflexivity.
  - reflexivity.
  - discriminate.
  - vm_compute. discriminate.
  - vm_compute. discriminate.
Defined.

(** An index file shorter than a header fails the unpacking before the
    magic tag is looked at. *)
Example short_index_raises_struct_error :
  fst (__init__ "seqs.mmidx" "seqs.mmdata" short_index_world) = Raise StructError.
Proof. vm_compute. reflexivity. Qed.

Lemma release_ok i w :
  i ∉ w_faulty w ->
  release i w =
    (Ok tt, if decide (i ∈ w_live w)
            then World (w_files w) (w_live w ∖ {[i]}) (w_next w) (w_faulty w)
                       (w_trace w)
            else w).
Proof.
  intros H. unfold release. destruct (decide (i ∈ w_live w)); [|reflexivity].
  now rewrite decide_False.
Qed.

Lemma release_faulty i w :
  i ∈ w_live w -> i ∈ w_faulty w -> release i w = (Raise (ReleaseError i), w).
Proof. intros H1 H2. unfold release. now rewrite !decide_True. Qed.

(** What a release does to the live resources, whatever its outcome. *)
Lemma release_live i w :
  w_faulty (snd (release i w)) = w_faulty w /\
  forall j, j ∈ w_live (snd (release i w)) <->
            j ∈ w_live w /\ (j = i -> fst (release i w) <> Ok tt).
Proof.
  unfold release.
  destruct (decide (i ∈ w_live w)) as [Hl|Hl];
    [destruct (decide (i ∈ w_faulty w))|]; cbn [fst snd w_live w_faulty];
    (split; [reflexivity|]); intros j.
  - split; [intros H; split; [assumption|discriminate]|now intros [H _]].
  - rewrite elem_of_difference, elem_of_singleton. split.
    + intros [H Hne]. split; [assumption|]. intros ->. contradiction.
    + intros [H Hne]. split; [assumption|]. intros ->. now apply Hne.
  - split.
    + intros H. split; [assumption|]. intros ->. contradiction.
    + now intros [H _].
Qed.

(** A release that does not raise: the resource is live no more, and
    nothing becomes live. *)
Lemma release_sound i w :
  i ∉ w_faulty w ->
  exists w',
    release i w = (Ok tt, w') /\
    w_faulty w' = w_faulty w /\
    (i ∉ w_live w') /\
    (forall j, j ∈ w_live w' -> j ∈ w_live w).
Proof.
  intros Hf. pose proof (release_live i w) as [Hfl Hl].
  rewrite (release_ok _ _ Hf) in Hfl, Hl. cbn [fst snd] in Hfl, Hl.
  eexists. split; [apply (release_ok _ _ Hf)|]. split; [exact Hfl|]. split.
  - intros Hin. apply Hl in Hin as [_ Hne]. now apply Hne.
  - intros j Hin. now apply Hl in Hin as [Hin _].
Qed.

(** With no faulty resource, [close] releases the two mappings and the two
    file objects. *)
Lemma close_releases_all self w :
  w_faulty w = ∅ ->
  exists w',
    close self w = (Ok tt, w') /\
    (mm_id (_index_mm self) ∉ w_live w') /\
    (f_id (_index_fd self) ∉ w_live w') /\
    (mm_id (_data_mm self) ∉ w_live w') /\
    (f_id (_data_fd self) ∉ w_live w').
Proof.
  intros Hf. unfold close, bind, try_finally.
  destruct (release_sound (mm_id (_index_mm self)) w) as (w1 & -> & Hf1 & Hn1 & Hs1);
    [rewrite Hf; apply not_elem_of_empty|].
  destruct (release_sound (f_id (_index_fd self)) w1) as (w2 & -> & Hf2 & Hn2 & Hs2);
    [rewrite Hf1, Hf; apply not_elem_of_empty|].
  destruct (release_sound (mm_id (_data_mm self)) w2) as (w3 & -> & Hf3 & Hn3 & Hs3);
    [rewrite Hf2, Hf1, Hf; apply not_elem_of_empty|].
  destruct (release_sound (f_id (_data_fd self)) w3) as (w4 & -> & Hf4 & Hn4 & Hs4);
    [rewrite Hf3, Hf2, Hf1, Hf; apply not_elem_of_empty|].
  exists w4. split; [reflexivity|]. repeat split.
  - intros H. apply Hn1. auto.
  - intros H. apply Hn2. auto.
  - intros H. apply Hn3. auto.
  - exact Hn4.
Qed.

(** When the release of the data mapping raises, the index mapping and the
    index file object are released all the same. *)
Lemma close_data_failure_keeps_index_released self w :
  mm_id (_index_mm self) ∉ w_faulty w ->
  f_id (_index_fd self) ∉ w_faulty w ->
  exists r w',
    close self w = (r, w') /\
    (mm_id (_index_mm self) ∉ w_live w') /\
    (f_id (_index_fd self) ∉ w_live w').
Proof.
  intros H1 H2. unfold close, bind, try_finally.
  destruct (release_sound (mm_id (_index_mm self)) w H1)
    as (w1 & -> & Hf1 & Hn1 & Hs1).
  destruct (release_sound (f_id (_index_fd self)) w1) as (w2 & -> & Hf2 & Hn2 & Hs2);
    [now rewrite Hf1|].
  pose proof (release_live (mm_id (_data_mm self)) w2) as [_ Hl3].
  destruct (release (mm_id (_data_mm self)) w2) as [r3 w3].
  pose proof (release_live (f_id (_data_fd self)) w3) as [_ Hl4].
  destruct (release (f_id (_data_fd self)) w3) as [r4 w4].
  cbn [fst snd] in Hl3, Hl4.
  exists (match r4 with Ok _ => r3 | Raise e => Raise e end), w4.
  split; [now destruct r4|].
  split; intros Hin; apply Hl4 in Hin as [Hin _]; apply Hl3 in Hin as [Hin _].
  - apply Hn1. auto.
  - now apply Hn2.
Qed.

(** C5: when the release of the index mapping raises, or that of the index
    file object, [close] raises and never reaches the data side: the data
    mapping and the data file object are still live afterwards. *)
Theorem close_index_failure_leaks_data self w :
  let imm := mm_id (_index_mm self) in
  let ifd := f_id (_index_fd self) in
  let dmm := mm_id (_data_mm self) in
  let dfd := f_id (_data_fd self) in
  (imm ∈ w_live w /\ imm ∈ w_faulty w) \/
  (ifd ∈ w_live w /\ ifd ∈ w_faulty w /\ ifd <> imm) ->
  dmm ∈ w_live w -> dfd ∈ w_live w ->
  dmm <> imm -> dmm <> ifd -> dfd <> imm -> dfd <> ifd ->
  exists e w',
    close self w = (Raise e, w') /\ dmm ∈ w_live w' /\ dfd ∈ w_live w'.
Proof.
  intros imm ifd dmm dfd Hfault Hdmm Hdfd N1 N2 N3 N4.
  unfold close, bind, try_finally. fold imm ifd dmm dfd.
  pose proof (release_live imm w) as [Hf1 Hl1].
  destruct (release imm w) as [r1 w1] eqn:E1. cbn [fst snd] in Hf1, Hl1.
  pose proof (release_live ifd w1) as [Hf2 Hl2].
  destruct (release ifd w1) as [r2 w2] eqn:E2. cbn [fst snd] in Hf2, Hl2.
  assert (dmm ∈ w_live w2 /\ dfd ∈ w_live w2) as [Hd1 Hd2].
  { split; apply Hl2; (split; [|congruence]); apply Hl1; (split; [|congruence]);
      assumption. }
  destruct Hfault as [[Hlive Hfaulty]|(Hlive & Hfaulty & Hne)].
  - rewrite (release_faulty _ _ Hlive Hfaulty) in E1. injection E1 as <- <-.
    destruct r2 as [[]|e2]; eauto.
  - assert (ifd ∈ w_live w1) as Hlive1.
    { apply Hl1. split; [assumption|]. intros ->. contradiction. }
    rewrite release_faulty in E2 by (rewrite ?Hf1; assumption).
    injection E2 as <- <-. eauto.
Qed.

Lemma close_index_failure_leaks_data_witness :
  exists e w',
    close scenario_self faulty_world = (Raise e, w') /\
    mm_id (_data_mm scenario_self) ∈ w_live w' /\
    f_id (_data_fd scenario_self) ∈ w_live w'.
Proof.
  apply (close_index_failure_leaks_data scenario_self faulty_world).
  - left. split; vm_compute; reflexivity.
  - vm_compute. reflexivity.
  - vm_compute. reflexivity.
  - vm_compute. discriminate.
  - vm_compute. discriminate.
  - vm_compute. discriminate.
  - vm_compute. discriminate.
Defined.

(** * More on the reader *)

(** ** The search on any index *)

Lemma _find_index_loop_sound self key_bytes : forall fuel lo hi r,
  _find_index_loop self fuel key_bytes lo hi = Some r ->
  r = -1 \/ (lo <= r <= hi /\ _key_at self r = key_bytes).
Proof.
  induction fuel as [|fuel IH]; intros lo hi r; cbn [_find_index_loop].
  - destruct (lo <=? hi); [discriminate|]. intros [= <-]. now left.
  - destruct (lo <=? hi) eqn:Hle; [|intros [= <-]; now left].
    apply Z.leb_le in Hle.
    assert (lo <= (lo + hi) / 2 <= hi) as Hmid.
    { split; [apply Z.div_le_lower_bound|apply Z.div_le_upper_bound]; lia. }
    destruct (bytes_eqb (_key_at self ((lo + hi) / 2)) key_bytes) eqn:Heq.
    + intros [= <-]. right. split; [lia|]. now apply bytes_eqb_eq.
    + destruct (bytes_ltb (_key_at self ((lo + hi) / 2)) key_bytes);
        intros H; apply IH in H as [->|[Hr Hk]]; auto; right; split; auto; lia.
Qed.

(** X1: on any store, whatever its index holds, the search reports a miss
    or a position below the count whose key is the query: a query that is
    no byte sequence, or not of the key size, is a miss. *)
Theorem find_index_sound self key :
  _find_index self key = -1 \/
  (0 <= _find_index self key < _count self /\
   exists key_bytes,
     key = PyBytes key_bytes /\ len key_bytes = _key_size self /\
     _key_at self (_find_index self key) = key_bytes).
Proof.
  destruct key as [|s|key_bytes]; try (now left).
  unfold _find_index.
  destruct (len key_bytes =? _key_size self) eqn:Hlen; cbv beta iota zeta delta [negb];
    [|now left].
  apply Z.eqb_eq in Hlen.
  destruct (_find_index_loop self (Z.to_nat (_count self)) key_bytes 0
              (_count self - 1)) as [r|] eqn:Hloop; cbn [from_option]; unfold id;
    [|now left].
  apply _find_index_loop_sound in Hloop as [->|[Hr Hk]]; [now left|].
  right. split; [lia|]. eauto.
Qed.

Lemma find_index_miss_or_hit self key :
  _find_index self key = -1 \/ 0 <= _find_index self key.
Proof.
  destruct key as [|s|key_bytes]; try (now left).
  unfold _find_index.
  destruct (len key_bytes =? _key_size self); cbv beta iota zeta delta [negb];
    [|now left].
  destruct (_find_index_loop self (Z.to_nat (_count self)) key_bytes 0
              (_count self - 1)) as [r|] eqn:Hloop; cbn [from_option]; unfold id;
    [|now left].
  apply _find_index_loop_sound in Hloop as [->|[Hr _]]; [now left|now right].
Qed.

(** X2: on any store, whatever its files hold, the three lookups agree.
    On a miss [__contains__] is false, [get] returns the default and
    [__getitem__] raises [KeyError]; on a hit [__contains__] is true, the
    default plays no part, [__getitem__] is [get], and a value returned is
    a text, never the [None] that [__getitem__] uses for a miss. *)
Theorem lookups_agree self key :
  (__contains__ self key = false /\
   (forall default, get self key default = Ok default) /\
   __getitem__ self key = Raise (KeyError key)) \/
  (__contains__ self key = true /\
   (forall default, get self key default = get self key PyNone) /\
   __getitem__ self key = get self key PyNone /\
   forall value, get self key PyNone = Ok value -> exists s, value = PyStr s).
Proof.
  destruct (find_index_miss_or_hit self key) as [Hmiss|Hhit].
  - left. unfold __contains__, __getitem__, get. rewrite Hmiss. repeat split.
  - right.
    assert (forall default,
              get self key default =
              rbind (_offset_and_length self (_find_index self key))
                (fun '(offset, length) =>
                 rbind (decode_ascii (slice (mm_buf (_data_mm self)) offset
                                        (offset + length)))
                       (fun s => Ok (PyStr s)))) as Hget.
    { intros default. unfold get.
      destruct (_find_index self key <? 0) eqn:E; [|reflexivity].
      apply Z.ltb_lt in E. lia. }
    assert (forall value, get self key PyNone = Ok value -> exists s, value = PyStr s)
      as Htext.
    { intros value. rewrite Hget.
      destruct (_offset_and_length self (_find_index self key)) as [[o l]|];
        cbn [rbind]; [|discriminate].
      destruct (decode_ascii _) as [s|]; cbn [rbind]; [|discriminate].
      intros [= <-]. eauto. }
    split; [unfold __contains__; apply Z.geb_le; lia|].
    split; [intros default; now rewrite !Hget|]. split; [|exact Htext].
    unfold __getitem__. destruct (get self key PyNone) as [value|e] eqn:Eg;
      cbn [rbind]; [|reflexivity].
    destruct (Htext value eq_refl) as [s ->]. reflexivity.
Qed.

(** ** The reader on a built store, key by key *)

Section Lookups.
Variable self : SequenceMmapStore.
Variable recs : list (bytes * bytes * bytes).
Hypothesis layout : store_layout self recs.

Lemma find_index_missing query :
  (forall rec, rec ∈ recs -> PyBytes (rec_key rec) <> query) ->
  _find_index self query = -1.
Proof.
  intros Hmiss. destruct query as [|s|key_bytes];
    try (apply (find_index_reject self); intros ? [=]; fail).
  destruct (decide (len key_bytes = _key_size self)) as [Hlen|Hlen].
  - destruct (find_index_bytes self recs layout key_bytes Hlen)
      as [[H _]|(n & rec & _ & Hn & Hk)]; [exact H|].
    exfalso. apply (Hmiss rec); [|now rewrite Hk].
    eapply list_elem_of_lookup_2; eauto.
  - apply (find_index_reject self). now intros ? [= <-].
Qed.

Lemma offset_chain n v k r :
  recs !! n = Some (v, k, r) ->
  len (data_bytes (take (S n) recs)) = len (data_bytes (take n recs)) + len v /\
  len (data_bytes (take n recs)) + len v <= len (data_bytes recs).
Proof.
  intros Hn. split.
  - rewrite (take_S_r _ _ _ Hn). unfold data_bytes. rewrite flat_map_app.
    cbn [flat_map]. rewrite app_nil_r. apply len_app.
  - rewrite (data_bytes_split recs n v k r Hn). rewrite !len_app.
    pose proof (len_nonneg (data_bytes (drop (S n) recs))). lia.
Qed.
End Lookups.

(** X3: the store has as many records as the mapping has items, and its
    key size is the length of every key. *)
Theorem len_counts_the_items index_folder basename seq_dict w self :
  seq_dict <> [] ->
  NoDup (map fst seq_dict) ->
  built_store index_folder basename seq_dict w self ->
  __len__ self = len seq_dict /\
  forall key seq, In (key, seq) seq_dict ->
    exists key_bytes, key = PyBytes key_bytes /\ len key_bytes = _key_size self.
Proof.
  intros Hne Hnd Hbuilt.
  destruct (built_store_layout _ _ _ _ _ Hne Hnd Hbuilt) as (recs & Hpack & Hkeys & Hl).
  split.
  - unfold __len__. rewrite (sl_count _ _ Hl). unfold len.
    rewrite (pack_items_length _ _ _ Hpack).
    now rewrite (Permutation_length (sorted_items_perm seq_dict)).
  - intros key seq Hin. rewrite Forall_forall in Hkeys.
    apply list_elem_of_In, Hkeys in Hin as [Hk Hlen]. cbn [fst] in *. eauto.
Qed.

Lemma len_counts_the_items_witness :
  __len__ scenario_self = len scenario /\
  forall key seq, In (key, seq) scenario ->
    exists key_bytes, key = PyBytes key_bytes /\ len key_bytes = _key_size scenario_self.
Proof.
  apply (len_counts_the_items "dir" "seqs" scenario world0 scenario_self).
  - discriminate.
  - exact scenario_nodup.
  - exact scenario_built.
Defined.

(** X4: a query that is no key of the mapping gets the default from [get],
    whatever the default is, and [KeyError] from [__getitem__]. *)
Theorem missing_key_default index_folder basename seq_dict w self query :
  seq_dict <> [] ->
  NoDup (map fst seq_dict) ->
  built_store index_folder basename seq_dict w self ->
  ~ In query (map fst seq_dict) ->
  (forall default, get self query default = Ok default) /\
  __getitem__ self query = Raise (KeyError query).
Proof.
  intros Hne Hnd Hbuilt Hnotin.
  destruct (built_store_layout _ _ _ _ _ Hne Hnd Hbuilt) as (recs & Hpack & Hkeys & Hl).
  assert (_find_index self query = -1) as Hfind.
  { apply (find_index_missing self recs Hl). intros [[v k] r] Hin <-.
    apply list_elem_of_lookup in Hin as [n Hn].
    destruct (records_of_items _ _ Hpack) as [_ Hback].
    destruct (Hback _ _ _ _ Hn) as (seq & Hin & _).
    apply Hnotin. apply in_map_iff. exists (PyBytes k, seq). now split. }
  assert (forall default, get self query default = Ok default) as Hget.
  { intros default. unfold get. now rewrite Hfind. }
  split; [exact Hget|]. unfold __getitem__. now rewrite Hget.
Qed.

Lemma missing_key_default_witness :
  (forall default, get scenario_self (PyBytes (b "AAAB")) default = Ok default) /\
  __getitem__ scenario_self (PyBytes (b "AAAB")) = Raise (KeyError (PyBytes (b "AAAB"))).
Proof.
  apply (missing_key_default "dir" "seqs" scenario world0 scenario_self).
  - discriminate.
  - exact scenario_nodup.
  - exact scenario_built.
  - vm_compute. intuition discriminate.
Defined.

(** X5: a key whose value is ASCII gets its text back from [get] and from
    [__getitem__], whatever the other values of the mapping are. *)
Theorem ascii_value_is_returned index_folder basename seq_dict w self key seq :
  seq_dict <> [] ->
  NoDup (map fst seq_dict) ->
  built_store index_folder basename seq_dict w self ->
  In (key, seq) seq_dict ->
  ascii_value seq ->
  (forall default, get self key default = Ok (PyStr (value_text seq))) /\
  __getitem__ self key = Ok (PyStr (value_text seq)).
Proof.
  intros Hne Hnd Hbuilt Hin Hascii.
  destruct (built_store_layout _ _ _ _ _ Hne Hnd Hbuilt) as (recs & Hpack & Hkeys & Hl).
  destruct (records_of_items _ _ Hpack) as [Hfwd _].
  destruct (Hfwd _ _ Hin) as (n & v & k & r & Hn & -> & Hv).
  destruct (ascii_value_roundtrip _ _ Hascii Hv) as [Hdec _].
  assert (forall default, get self (PyBytes k) default = Ok (PyStr (value_text seq)))
    as Hget.
  { intros default. rewrite (get_record self recs Hl n v k r default Hn).
    now rewrite Hdec. }
  split; [exact Hget|]. unfold __getitem__. now rewrite Hget.
Qed.

Lemma with_high_byte_built :
  built_store "dir" "seqs" with_high_byte world0 with_high_byte_self.
Proof.
  exists with_high_byte_world, (mapped with_high_byte_world).
  split; vm_compute; reflexivity.
Qed.

Lemma ascii_value_is_returned_witness :
  (forall default,
     get with_high_byte_self (PyBytes (b "bb")) default = Ok (PyStr (text "x"))) /\
  __getitem__ with_high_byte_self (PyBytes (b "bb")) = Ok (PyStr (text "x")).
Proof.
  apply (ascii_value_is_returned "dir" "seqs" with_high_byte world0
           with_high_byte_self (PyBytes (b "bb")) (SeqStr (text "x"))).
  - discriminate.
  - distinct_keys.
  - exact with_high_byte_built.
  - left. reflexivity.
  - repeat constructor; vm_compute; congruence.
Defined.

(** X6: the offsets of a built store tile the data file: the first
    value starts at 0, each next value starts where the one before ends, the
    last one ends with the data, and none reaches past it. *)
Theorem offsets_tile_the_data index_folder basename seq_dict w self :
  seq_dict <> [] ->
  NoDup (map fst seq_dict) ->
  built_store index_folder basename seq_dict w self ->
  forall i, 0 <= i < __len__ self ->
    exists offset length,
      _offset_and_length self i = Ok (offset, length) /\
      0 <= offset /\ 0 <= length /\
      offset + length <= len (mm_buf (_data_mm self)) /\
      (i = 0 -> offset = 0) /\
      (i + 1 < __len__ self ->
         exists length', _offset_and_length self (i + 1) = Ok (offset + length, length')) /\
      (i + 1 = __len__ self -> offset + length = len (mm_buf (_data_mm self))).
Proof.
  intros Hne Hnd Hbuilt i Hi.
  destruct (built_store_layout _ _ _ _ _ Hne Hnd Hbuilt) as (recs & Hpack & Hkeys & Hl).
  unfold __len__ in *. pose proof (sl_count _ _ Hl) as Hcount.
  destruct (lookup_lt_is_Some_2 recs (Z.to_nat i)) as [[[v k] r] Hn].
  { unfold len in Hcount. lia. }
  pose proof (offset_and_length_record self recs Hl _ _ _ _ Hn) as Hoff.
  rewrite Z2Nat.id in Hoff by lia.
  destruct (offset_chain recs _ _ _ _ Hn) as [Hnext Hbound].
  exists (len (data_bytes (take (Z.to_nat i) recs))), (len v).
  rewrite (sl_data _ _ Hl).
  split; [exact Hoff|]. split; [apply len_nonneg|]. split; [apply len_nonneg|].
  split; [exact Hbound|]. split; [|split].
  - intros ->. reflexivity.
  - intros Hlt.
    destruct (lookup_lt_is_Some_2 recs (S (Z.to_nat i))) as [[[v' k'] r'] Hn'].
    { unfold len in Hcount. lia. }
    exists (len v').
    pose proof (offset_and_length_record self recs Hl _ _ _ _ Hn') as Hoff'.
    rewrite Hnext in Hoff'. rewrite <- Hoff'. f_equal. lia.
  - intros Hlast. rewrite (data_bytes_split recs _ _ _ _ Hn).
    rewrite drop_ge by (unfold len in Hcount; lia).
    cbn [data_bytes flat_map]. rewrite app_nil_r. now rewrite len_app.
Qed.

Lemma offsets_tile_the_data_witness :
  exists offset length,
    _offset_and_length scenario_self 1 = Ok (offset, length) /\
    0 <= offset /\ 0 <= length /\
    offset + length <= len (mm_buf (_data_mm scenario_self)) /\
    (1 = 0 -> offset = 0) /\
    (1 + 1 < __len__ scenario_self ->
       exists length',
         _offset_and_length scenario_self (1 + 1) = Ok (offset + length, length')) /\
    (1 + 1 = __len__ scenario_self ->
       offset + length = len (mm_buf (_data_mm scenario_self))).
Proof.
  apply (offsets_tile_the_data "dir" "seqs" scenario world0 scenario_self).
  - discriminate.
  - exact scenario_nodup.
  - exact scenario_built.
  - assert (__len__ scenario_self = 3) as -> by (vm_compute; reflexivity). lia.
Defined.

(** X7: the key at each position of a built store is a key of the
    mapping, and the search for it finds that position. *)
Theorem find_index_key_at index_folder basename seq_dict w self :
  seq_dict <> [] ->
  NoDup (map fst seq_dict) ->
  built_store index_folder basename seq_dict w self ->
  forall i, 0 <= i < __len__ self ->
    _find_index self (PyBytes (_key_at self i)) = i /\
    In (PyBytes (_key_at self i)) (map fst seq_dict).
Proof.
  intros Hne Hnd Hbuilt i Hi.
  destruct (built_store_layout _ _ _ _ _ Hne Hnd Hbuilt) as (recs & Hpack & Hkeys & Hl).
  destruct (key_at_of_index self recs Hl i Hi) as ([[v k] r] & Hn & ->).
  cbn [rec_key fst snd]. split.
  - rewrite (find_index_record self recs Hl _ _ _ _ Hn). lia.
  - destruct (records_of_items _ _ Hpack) as [_ Hback].
    destruct (Hback _ _ _ _ Hn) as (seq & Hin & _).
    apply in_map_iff. exists (PyBytes k, seq). now split.
Qed.

Lemma find_index_key_at_witness :
  _find_index scenario_self (PyBytes (_key_at scenario_self 2)) = 2 /\
  In (PyBytes (_key_at scenario_self 2)) (map fst scenario).
Proof.
  apply (find_index_key_at "dir" "seqs" scenario world0 scenario_self).
  - discriminate.
  - exact scenario_nodup.
  - exact scenario_built.
  - assert (__len__ scenario_self = 3) as -> by (vm_compute; reflexivity). lia.
Defined.

(** * More on the builder *)

(** ** Writes *)

Lemma written_refl paths w : written paths w w.
Proof.
  repeat split; try reflexivity.
  - intros p d H. exists []. now rewrite app_nil_r.
  - exists []. split; [now rewrite app_nil_r|]. intros ev [].
Qed.

Lemma written_trans paths w1 w2 w3 :
  written paths w1 w2 -> written paths w2 w3 -> written paths w1 w3.
Proof.
  intros (Hl & Hn & Hf & Ho & Hg & (t & Ht & Hw))
         (Hl' & Hn' & Hf' & Ho' & Hg' & (t' & Ht' & Hw')).
  repeat split; try congruence.
  - intros p Hp. rewrite (Ho' p Hp). now apply Ho.
  - intros p d Hd. destruct (Hg p d Hd) as [d1 H1].
    destruct (Hg' p _ H1) as [d2 H2]. exists (d1 ++ d2). now rewrite app_assoc.
  - exists (t ++ t'). split; [rewrite Ht', Ht; now rewrite app_assoc|].
    intros ev Hin. apply in_app_or in Hin as [Hin|Hin]; auto.
Qed.

Lemma write_written paths f data w :
  f_path f ∈ paths -> written paths w (snd (write f data w)).
Proof.
  intros Hin. unfold write. destruct (decide (f_id f ∈ w_live w));
    [|apply written_refl].
  cbn [snd]. repeat split; cbn [w_files w_live w_next w_faulty w_trace].
  - intros p Hp. apply lookup_insert_ne. intros <-. contradiction.
  - intros p d Hd. destruct (decide (f_path f = p)) as [<-|Hne].
    + rewrite lookup_insert_eq, Hd. cbn [from_option]. unfold id. eauto.
    + rewrite lookup_insert_ne by assumption. exists []. now rewrite app_nil_r.
  - eexists. split; [reflexivity|]. intros ev [<-|[]]. eauto.
Qed.

Lemma bind_written {A B} paths (m : IO A) (k : A -> IO B) w :
  written paths w (snd (m w)) ->
  (forall a w1, written paths w1 (snd (k a w1))) ->
  written paths w (snd (bind m k w)).
Proof.
  intros Hm Hk. unfold bind. destruct (m w) as [[a|e] w1]; cbn [snd] in *.
  - eapply written_trans; [exact Hm|apply Hk].
  - exact Hm.
Qed.

Lemma write_records_written paths data_f idx_f items :
  f_path data_f ∈ paths -> f_path idx_f ∈ paths ->
  forall offset w,
    written paths w (snd (write_records data_f idx_f items offset w)).
Proof.
  intros Hd Hi. induction items as [|[key seq] rest IH]; intros offset w;
    cbn [write_records].
  - apply written_refl.
  - repeat (apply bind_written;
            [first [apply written_refl | now apply write_written]|intros]).
    apply IH.
Qed.

(** ** The two [with] blocks *)

Lemma with_open_wb_run {A} path (body : file -> IO A) w :
  with_open_wb path body w =
    (fst (body (File (w_next w) path) (opened path w)),
     let w1 := snd (body (File (w_next w) path) (opened path w)) in
     World (w_files w1) (w_live w1 ∖ {[w_next w]}) (w_next w1) (w_faulty w1)
           (w_trace w1 ++ [EvClose path])).
Proof.
  unfold with_open_wb, bind, open_wb, alloc, try_finally, close_wb, opened.
  cbv beta iota. cbn [w_files w_live w_next w_faulty w_trace f_id f_path].
  now destruct (body _ _).
Qed.

(** The builder past the validation: the files are opened, then the header
    and the records are written, then the files are closed. *)
Lemma build_valid index_folder basename seq_dict key_size w :
  seq_dict <> [] ->
  Forall (bytes_key key_size) seq_dict ->
  let data_f := File (w_next w) (data_path_of index_folder basename) in
  let idx_f := File (S (w_next w)) (index_path_of index_folder basename) in
  let body :=
    (do header <- lift (HEADER_STRUCT.pack MAGIC key_size
                          (len (sorted_items seq_dict)));
     run write idx_f header;
     write_records data_f idx_f (sorted_items seq_dict) 0) in
  let w0 := opened (f_path idx_f) (opened (f_path data_f) w) in
  build_sequence_store index_folder basename seq_dict w =
    (fst (body w0), closed_both data_f idx_f (snd (body w0))).
Proof.
  intros Hne Hk. destruct seq_dict as [|[first_key v0] rest]; [contradiction|].
  pose proof Hk as Hk0. apply Forall_cons in Hk0 as [[Hf Hlen] _].
  cbn [fst] in Hf. cbv zeta.
  unfold build_sequence_store. rewrite Hf. cbn [is_bytes_like negb py_len].
  rewrite Hlen. unfold bind at 1. unfold lift at 1.
  unfold bind at 1. unfold lift at 1. rewrite <- Hf.
  rewrite (proj2 (check_keys_ok basename key_size _) Hk).
  unfold bind at 1. unfold lift at 1. rewrite (items_sort_ok key_size _ Hk).
  rewrite with_open_wb_run. cbv zeta. rewrite !with_open_wb_run. reflexivity.
Qed.

Lemma build_body_written index_folder basename key_size items data_f idx_f w :
  f_path data_f = data_path_of index_folder basename ->
  f_path idx_f = index_path_of index_folder basename ->
  written [data_path_of index_folder basename; index_path_of index_folder basename] w
    (snd ((do header <- lift (HEADER_STRUCT.pack MAGIC key_size (len items));
           run write idx_f header;
           write_records data_f idx_f items 0) w)).
Proof.
  intros Hd Hi.
  apply bind_written; [apply written_refl|intros header w1].
  apply bind_written; [apply write_written; rewrite Hi; set_solver|intros _ w2].
  apply write_records_written; [rewrite Hd|rewrite Hi]; set_solver.
Qed.

(** On every outcome the world after the build is the world before it, or
    the world of the two opened files after writes to them and their
    [close]. *)
Lemma build_world index_folder basename seq_dict w :
  let data_path := data_path_of index_folder basename in
  let index_path := index_path_of index_folder basename in
  snd (build_sequence_store index_folder basename seq_dict w) = w \/
  exists w1,
    written [data_path; index_path] (opened index_path (opened data_path w)) w1 /\
    snd (build_sequence_store index_folder basename seq_dict w) =
      closed_both (File (w_next w) data_path) (File (S (w_next w)) index_path) w1.
Proof.
  cbv zeta. destruct seq_dict as [|[first_key v0] rest]; [now left|].
  destruct first_key as [|s|k0]; try (now left).
  destruct (check_keys basename (len k0) ((PyBytes k0, v0) :: rest)) as [[]|e] eqn:Hc.
  - apply check_keys_ok in Hc. right.
    rewrite (build_valid index_folder basename ((PyBytes k0, v0) :: rest) (len k0) w
               ltac:(discriminate) Hc). cbv zeta. cbn [snd].
    eexists. split; [|reflexivity].
    now apply (build_body_written index_folder basename).
  - left. unfold build_sequence_store. cbn [is_bytes_like negb py_len].
    unfold bind at 1. unfold lift at 1. unfold bind at 1. unfold lift at 1.
    now rewrite Hc.
Qed.

Lemma not_among (p a c : string) : p <> a -> p <> c -> p ∉ [a; c].
Proof.
  intros Ha Hc Hin. apply list_elem_of_In in Hin.
  destruct Hin as [<-|[<-|[]]]; congruence.
Qed.

(** X8: whatever the outcome, the build leaves every file other than the
    two of its store as it was. *)
Theorem build_touches_only_its_files index_folder basename seq_dict w path :
  path <> index_path_of index_folder basename ->
  path <> data_path_of index_folder basename ->
  w_files (snd (build_sequence_store index_folder basename seq_dict w)) !! path =
  w_files w !! path.
Proof.
  intros Hi Hd.
  destruct (build_world index_folder basename seq_dict w)
    as [->|(w1 & (_ & _ & _ & Ho & _) & ->)]; [reflexivity|].
  cbn [closed_both w_files]. rewrite Ho by now apply not_among.
  cbn [opened w_files].
  rewrite lookup_insert_ne by congruence. rewrite lookup_insert_ne by congruence.
  reflexivity.
Qed.

Lemma build_touches_only_its_files_witness :
  w_files (snd (build_sequence_store "dir" "seqs" scenario busy_world))
    !! "dir/notes.txt"%string =
  w_files busy_world !! "dir/notes.txt"%string.
Proof.
  apply (build_touches_only_its_files "dir" "seqs" scenario busy_world).
  - vm_compute. discriminate.
  - vm_compute. discriminate.
Defined.

(** X9: whatever the outcome, also when a value cannot be encoded after
    the files were opened, the build leaves no file object open: the live
    resources are those from before. *)
Theorem build_leaves_nothing_open index_folder basename seq_dict w :
  fresh_ids w ->
  w_live (snd (build_sequence_store index_folder basename seq_dict w)) = w_live w.
Proof.
  intros Hfresh.
  destruct (build_world index_folder basename seq_dict w)
    as [->|(w1 & (Hl & _) & ->)]; [reflexivity|].
  cbn [closed_both w_live f_id]. rewrite Hl. cbn [opened w_live w_next].
  apply set_eq. intros i. specialize (Hfresh i).
  rewrite !elem_of_difference, !elem_of_union, !elem_of_singleton.
  split; [tauto|]. intros Hi. specialize (Hfresh Hi). repeat split; auto; lia.
Qed.

Lemma build_leaves_nothing_open_witness :
  w_live (snd (build_sequence_store "dir" "seqs" latin_text busy_world)) =
  w_live busy_world.
Proof.
  apply (build_leaves_nothing_open "dir" "seqs" latin_text busy_world).
  unfold fresh_ids, busy_world. cbn [w_live w_next]. intros i Hi.
  apply elem_of_singleton in Hi. lia.
Defined.

(** ** What the write loop can encode *)

Lemma seq_to_bytes_ok seq v :
  seq_to_bytes seq = Ok v -> len v = value_len seq /\ encodable seq.
Proof.
  destruct seq as [s|v0]; cbn [seq_to_bytes value_len encodable].
  - unfold encode_ascii.
    destruct (forallb (fun c => (0 <=? c) && (c <? 128)) s) eqn:E; [|discriminate].
    intros [= <-]. split; [unfold len; now rewrite length_map|].
    apply (forallb_Forall (fun c => (0 <=? c) && (c <? 128))); [|exact E].
    intros c. rewrite andb_true_iff, Z.leb_le, Z.ltb_lt. reflexivity.
  - intros [= <-]. split; [reflexivity|exact I].
Qed.

Lemma seq_to_bytes_encodable seq :
  encodable seq -> exists v, seq_to_bytes seq = Ok v.
Proof.
  destruct seq as [s|v0]; cbn [seq_to_bytes encodable]; intros He; [|eauto].
  rewrite (encode_ascii_ok _ He). eauto.
Qed.

Lemma seq_to_bytes_raise seq e :
  seq_to_bytes seq = Raise e -> e = UnicodeEncodeError /\ ~ encodable seq.
Proof.
  destruct seq as [s|v0]; cbn [seq_to_bytes encodable]; [|discriminate].
  intros Hr. split.
  - unfold encode_ascii in Hr. destruct (forallb _ s); congruence.
  - intros He. rewrite (encode_ascii_ok _ He) in Hr. discriminate.
Qed.

Lemma pack_items_data_len items : forall offset recs,
  pack_items items offset = Ok recs -> len (data_bytes recs) = data_len items.
Proof.
  induction items as [|[key0 seq0] rest IH]; intros offset recs Hp.
  - injection Hp as <-. reflexivity.
  - cbn [pack_items] in Hp.
    destruct (seq_to_bytes seq0) as [v0|] eqn:Hv; cbn [rbind] in Hp; [|discriminate].
    destruct (py_bytes key0) as [k0|]; cbn [rbind] in Hp; [|discriminate].
    destruct (OFFSET_STRUCT.pack offset (len v0)) as [r0|]; cbn [rbind] in Hp;
      [|discriminate].
    destruct (pack_items rest (offset + len v0)) as [recs'|] eqn:Ep;
      cbn [rbind] in Hp; [|discriminate].
    injection Hp as <-. cbn [data_bytes flat_map]. fold (data_bytes recs').
    rewrite len_app, (IH _ _ Ep). cbn [data_len fold_right snd].
    fold (data_len rest). now rewrite (proj1 (seq_to_bytes_ok _ _ Hv)).
Qed.

(** Items whose sizes fit: the loop packs them all when every value can be
    encoded, and stops with [UnicodeEncodeError] at the first that cannot. *)
Lemma pack_items_outcome key_size items : forall offset,
  Forall (bytes_key key_size) items ->
  Forall (fun it => value_len (snd it) < 2 ^ 32) items ->
  0 <= offset -> offset + data_len items < 2 ^ 64 ->
  (Forall (fun it => encodable (snd it)) items ->
     exists recs, pack_items items offset = Ok recs) /\
  (Exists (fun it => ~ encodable (snd it)) items ->
     pack_items items offset = Raise UnicodeEncodeError).
Proof.
  induction items as [|[key seq] rest IH]; intros offset Hk Hl Ho Ht.
  - split; [eauto|]. intros He. inversion He.
  - apply Forall_cons in Hk as [[Hk0 _] Hk].
    apply Forall_cons in Hl as [Hl0 Hl].
    cbn [fst snd] in Hk0, Hl0. cbn [data_len fold_right snd] in Ht.
    fold (data_len rest) in Ht.
    pose proof (data_len_nonneg rest) as Hnn.
    cbn [pack_items]. rewrite Hk0. cbn [py_bytes].
    destruct (seq_to_bytes seq) as [v|e] eqn:Hv; cbn [rbind].
    + destruct (seq_to_bytes_ok _ _ Hv) as [Hlen Henc].
      pose proof (len_nonneg v) as Hvn.
      unfold OFFSET_STRUCT.pack.
      rewrite (pack_uint_fits 8 offset)
        by (change (2 ^ (8 * Z.of_nat 8)) with (2 ^ 64); lia).
      rewrite (pack_uint_fits 4 (len v))
        by (change (2 ^ (8 * Z.of_nat 4)) with (2 ^ 32); lia).
      cbn [rbind].
      destruct (IH (offset + len v) Hk Hl) as [Hall Hex]; [lia|lia|].
      split.
      * intros Ha. apply Forall_cons in Ha as [_ Ha].
        destruct (Hall Ha) as [recs ->]. cbn [rbind]. eauto.
      * intros He. apply Exists_cons in He as [He|He]; [contradiction|].
        now rewrite (Hex He).
    + destruct (seq_to_bytes_raise _ _ Hv) as [-> Hne]. split; [|reflexivity].
      intros Ha. apply Forall_cons in Ha as [Ha _]. contradiction.
Qed.

Lemma header_pack_fits key_size count :
  0 <= key_size < 2 ^ 32 -> 0 <= count < 2 ^ 64 ->
  HEADER_STRUCT.pack MAGIC key_size count =
    Ok (resize 8 "000"%byte MAGIC ++ le_split 4 key_size ++ le_split 8 count).
Proof.
  intros Hk Hc. unfold HEADER_STRUCT.pack.
  rewrite (pack_uint_fits 4 key_size)
    by (change (2 ^ (8 * Z.of_nat 4)) with (2 ^ 32); lia).
  rewrite (pack_uint_fits 8 count)
    by (change (2 ^ (8 * Z.of_nat 8)) with (2 ^ 64); lia).
  reflexivity.
Qed.

Lemma key_size_nonneg key_size (seq_dict : list item) :
  seq_dict <> [] -> Forall (bytes_key key_size) seq_dict -> 0 <= key_size.
Proof.
  destruct seq_dict as [|it rest]; [contradiction|]. intros _ Hk.
  apply Forall_cons in Hk as [[_ <-] _]. apply len_nonneg.
Qed.

Lemma len_sorted_items (seq_dict : list item) :
  len (sorted_items seq_dict) = len seq_dict.
Proof. unfold len. now rewrite (Permutation_length (sorted_items_perm seq_dict)). Qed.

(** The result of the builder past the validation. *)
Lemma build_valid_result index_folder basename seq_dict key_size w :
  seq_dict <> [] ->
  Forall (bytes_key key_size) seq_dict ->
  fst (build_sequence_store index_folder basename seq_dict w) =
    rbind (HEADER_STRUCT.pack MAGIC key_size (len seq_dict)) (fun _ =>
    rbind (pack_items (sorted_items seq_dict) 0) (fun _ => Ok tt)).
Proof.
  intros Hne Hk. destruct seq_dict as [|[first_key v0] rest]; [contradiction|].
  pose proof Hk as Hk0. apply Forall_cons in Hk0 as [[Hf Hlen] _].
  cbn [fst] in Hf.
  rewrite build_result by now rewrite Hf.
  rewrite Hf at 1. cbn [py_len]. rewrite Hlen. cbn [rbind].
  rewrite (proj2 (check_keys_ok basename key_size _) Hk).
  cbn [rbind]. rewrite (items_sort_ok key_size _ Hk). cbn [rbind].
  now rewrite len_sorted_items.
Qed.

(** X10: a mapping with valid keys whose sizes fit the fields is built
    when every text value is ASCII; the values given as byte sequences may
    hold any bytes. *)
Theorem build_succeeds_on_encodable index_folder basename seq_dict key_size w :
  seq_dict <> [] ->
  Forall (bytes_key key_size) seq_dict ->
  key_size < 2 ^ 32 ->
  Forall (fun it => encodable (snd it)) seq_dict ->
  Forall (fun it => value_len (snd it) < 2 ^ 32) seq_dict ->
  len seq_dict < 2 ^ 64 ->
  data_len seq_dict < 2 ^ 64 ->
  fst (build_sequence_store index_folder basename seq_dict w) = Ok tt.
Proof.
  intros Hne Hk Hks He Hl Hcnt Hdata.
  pose proof (sorted_items_perm seq_dict) as Hperm.
  pose proof (key_size_nonneg _ _ Hne Hk) as Hnn.
  rewrite (build_valid_result _ _ _ key_size w Hne Hk).
  rewrite header_pack_fits by (pose proof (len_nonneg seq_dict); lia).
  cbn [rbind].
  destruct (pack_items_outcome key_size (sorted_items seq_dict) 0) as [Hall _].
  { now rewrite Hperm. }
  { now rewrite Hperm. }
  { lia. }
  { rewrite (data_len_perm _ _ Hperm). lia. }
  destruct Hall as [recs ->]; [now rewrite Hperm|]. reflexivity.
Qed.

Lemma build_succeeds_on_encodable_witness :
  fst (build_sequence_store "dir" "seqs" with_high_byte world0) = Ok tt.
Proof.
  apply (build_succeeds_on_encodable "dir" "seqs" with_high_byte 2 world0).
  - discriminate.
  - repeat constructor.
  - lia.
  - repeat constructor; vm_compute; congruence.
  - repeat constructor.
  - vm_compute. reflexivity.
  - vm_compute. reflexivity.
Defined.

(** X11: when a text value cannot be encoded the build raises
    [UnicodeEncodeError] after both files were opened: the two files are
    left behind, the index file starting with the header of the full
    count, and what was in them before is gone. *)
Theorem build_encode_failure index_folder basename seq_dict key_size w :
  Forall (bytes_key key_size) seq_dict ->
  key_size < 2 ^ 32 ->
  Forall (fun it => value_len (snd it) < 2 ^ 32) seq_dict ->
  len seq_dict < 2 ^ 64 ->
  data_len seq_dict < 2 ^ 64 ->
  Exists (fun it => ~ encodable (snd it)) seq_dict ->
  exists w1 header records data,
    build_sequence_store index_folder basename seq_dict w =
      (Raise UnicodeEncodeError, w1) /\
    HEADER_STRUCT.pack MAGIC key_size (len seq_dict) = Ok header /\
    w_files w1 !! index_path_of index_folder basename = Some (header ++ records) /\
    w_files w1 !! data_path_of index_folder basename = Some data.
Proof.
  intros Hk Hks Hl Hcnt Hdata Hex.
  assert (seq_dict <> []) as Hne by (intros ->; inversion Hex).
  pose proof (sorted_items_perm seq_dict) as Hperm.
  pose proof (key_size_nonneg _ _ Hne Hk) as Hnn.
  pose proof (header_pack_fits key_size (len seq_dict)) as Hh.
  specialize (Hh ltac:(lia) ltac:(pose proof (len_nonneg seq_dict); lia)).
  destruct (pack_items_outcome key_size (sorted_items seq_dict) 0) as [_ Hraise].
  { now rewrite Hperm. }
  { now rewrite Hperm. }
  { lia. }
  { rewrite (data_len_perm _ _ Hperm). lia. }
  specialize (Hraise ltac:(now rewrite Hperm)).
  pose proof (build_valid_result index_folder basename _ _ w Hne Hk) as Hres.
  rewrite Hh, Hraise in Hres. cbn [rbind] in Hres.
  rewrite (build_valid index_folder basename _ _ w Hne Hk) in Hres |- *.
  cbv zeta in Hres |- *. cbn [fst] in Hres. rewrite Hres.
  rewrite len_sorted_items, Hh. unfold bind at 1 2. unfold lift at 1.
  rewrite write_live by (cbn [opened w_live w_next f_id]; set_solver).
  cbn [f_path opened w_files w_live w_next w_faulty w_trace].
  rewrite lookup_insert_eq. cbn [from_option app]. unfold id.
  match goal with
  | |- context [write_records ?df ?xf ?items 0 ?w0] =>
      destruct (write_records_written
                  [data_path_of index_folder basename;
                   index_path_of index_folder basename] df xf items
                  ltac:(cbn [f_path]; set_solver) ltac:(cbn [f_path]; set_solver)
                  0 w0) as (_ & _ & _ & _ & Hgrow & _)
  end.
  cbn [w_files] in Hgrow.
  destruct (Hgrow (index_path_of index_folder basename) _ (lookup_insert_eq _ _ _))
    as [records Hi].
  destruct (Hgrow (data_path_of index_folder basename) [])
    as [data Hd].
  { rewrite lookup_insert_ne by apply not_eq_sym, paths_differ.
    rewrite lookup_insert_ne by apply not_eq_sym, paths_differ.
    apply lookup_insert_eq. }
  eexists _, _, records, data. split; [reflexivity|]. split; [reflexivity|].
  cbn [closed_both w_files]. split; assumption.
Qed.

Lemma build_encode_failure_witness :
  exists w1 header records data,
    build_sequence_store "dir" "seqs" latin_text world0 =
      (Raise UnicodeEncodeError, w1) /\
    HEADER_STRUCT.pack MAGIC 1 (len latin_text) = Ok header /\
    w_files w1 !! index_path_of "dir" "seqs" = Some (header ++ records) /\
    w_files w1 !! data_path_of "dir" "seqs" = Some data.
Proof.
  apply (build_encode_failure "dir" "seqs" latin_text 1 world0).
  - repeat constructor.
  - lia.
  - repeat constructor.
  - vm_compute. reflexivity.
  - vm_compute. reflexivity.
  - left. cbn [snd encodable]. intros H. apply Forall_cons in H as [H _]. lia.
Defined.

(** X12: the files of a build that ran to its end have the sizes that the
    mapping gives: a header of 20 bytes and one record of the key size plus
    12 bytes for each item, and the values one after the other. *)
Theorem build_file_sizes index_folder basename seq_dict w w1 :
  seq_dict <> [] ->
  build_sequence_store index_folder basename seq_dict w = (Ok tt, w1) ->
  exists key_size ibuf dbuf,
    Forall (bytes_key key_size) seq_dict /\
    w_files w1 !! index_path_of index_folder basename = Some ibuf /\
    w_files w1 !! data_path_of index_folder basename = Some dbuf /\
    len ibuf = 20 + len seq_dict * (key_size + 12) /\
    len dbuf = data_len seq_dict.
Proof.
  intros Hne Hrun.
  destruct (build_ok_inv _ _ _ _ _ Hne Hrun) as (key_size & header & recs & Hk & Hh & Hp & ->).
  pose proof (sorted_items_perm seq_dict) as Hperm.
  exists key_size, (header ++ index_records recs), (data_bytes recs).
  split; [exact Hk|]. cbn [built_world w_files].
  split; [apply lookup_insert_eq|]. split.
  { rewrite lookup_insert_ne by apply not_eq_sym, paths_differ.
    apply lookup_insert_eq. }
  split.
  - rewrite len_app, (header_len _ _ _ _ Hh).
    rewrite (index_records_len key_size).
    + unfold len at 1. rewrite (pack_items_length _ _ _ Hp).
      fold (len (sorted_items seq_dict)). rewrite len_sorted_items. reflexivity.
    + apply (pack_items_sized _ _ _ _ Hp). now rewrite Hperm.
  - rewrite (pack_items_data_len _ _ _ Hp). apply data_len_perm, Hperm.
Qed.

Lemma build_file_sizes_witness :
  exists key_size ibuf dbuf,
    Forall (bytes_key key_size) scenario /\
    w_files scenario_world !! index_path_of "dir" "seqs" = Some ibuf /\
    w_files scenario_world !! data_path_of "dir" "seqs" = Some dbuf /\
    len ibuf = 20 + len scenario * (key_size + 12) /\
    len dbuf = data_len scenario.
Proof.
  apply (build_file_sizes "dir" "seqs" scenario world0 scenario_world).
  - discriminate.
  - vm_compute. reflexivity.
Defined.

(** X13: past the validation the build opens the data file, then the
    index file, and closes them in the reverse order whatever happens in
    between: the log ends with the two [close] calls also when the write
    loop raises. *)
Theorem build_closes_both_files index_folder basename seq_dict key_size w :
  seq_dict <> [] ->
  Forall (bytes_key key_size) seq_dict ->
  let data_path := data_path_of index_folder basename in
  let index_path := index_path_of index_folder basename in
  exists writes,
    w_trace (snd (build_sequence_store index_folder basename seq_dict w)) =
      w_trace w ++ [EvOpen data_path; EvOpen index_path] ++ writes ++
      [EvClose index_path; EvClose data_path] /\
    forall ev, In ev writes ->
      exists path data, ev = EvWrite path data /\
                        (path = data_path \/ path = index_path).
Proof.
  intros Hne Hk. cbv zeta.
  rewrite (build_valid index_folder basename seq_dict key_size w Hne Hk).
  cbv zeta. cbn [snd closed_both w_trace f_path].
  match goal with
  | |- context [snd (?body ?w0)] =>
      destruct (build_body_written index_folder basename key_size
                  (sorted_items seq_dict)
                  (File (w_next w) (data_path_of index_folder basename))
                  (File (S (w_next w)) (index_path_of index_folder basename))
                  w0 eq_refl eq_refl) as (_ & _ & _ & _ & _ & (writes & Ht & Hw))
  end.
  exists writes. split.
  - rewrite Ht. cbn [opened w_trace]. rewrite <- !app_assoc. reflexivity.
  - intros ev Hin. destruct (Hw ev Hin) as (path & data & -> & Hp).
    exists path, data. split; [reflexivity|].
    apply list_elem_of_In in Hp. destruct Hp as [<-|[<-|[]]]; auto.
Qed.

Lemma build_closes_both_files_witness :
  exists writes,
    w_trace (snd (build_sequence_store "dir" "seqs" latin_text world0)) =
      w_trace world0 ++
      [EvOpen (data_path_of "dir" "seqs"); EvOpen (index_path_of "dir" "seqs")] ++
      writes ++
      [EvClose (index_path_of "dir" "seqs"); EvClose (data_path_of "dir" "seqs")] /\
    forall ev, In ev writes ->
      exists path data, ev = EvWrite path data /\
                        (path = data_path_of "dir" "seqs" \/
                         path = index_path_of "dir" "seqs").
Proof.
  apply (build_closes_both_files "dir" "seqs" latin_text 1 world0).
  - discriminate.
  - repeat constructor.
Defined.

(** ** The order of the items *)

Lemma decorated_keys_nodup key_size items :
  Forall (bytes_key key_size) items -> NoDup (map fst items) ->
  NoDup (map fst (sort_keyed (decorate items))).
Proof.
  intros Hk Hnd.
  apply (NoDup_Permutation_proper _ _ (Permutation_map fst (sort_keyed_perm _))).
  unfold decorate. rewrite map_map. cbn [fst].
  apply (NoDup_fmap_1 PyBytes).
  replace (PyBytes <$> map key_of items) with (map fst items); [assumption|].
  change (map fst items = map PyBytes (map key_of items)).
  rewrite map_map. apply map_ext_Forall.
  eapply Forall_impl; [exact Hk|]. now intros it [H _].
Qed.

(** Distinct keys leave one sorted order. *)
Lemma sorted_items_order key_size items items' :
  Forall (bytes_key key_size) items -> NoDup (map fst items) ->
  Permutation items items' -> sorted_items items' = sorted_items items.
Proof.
  intros Hk Hnd Hperm. unfold sorted_items. f_equal.
  assert (NoDup (map fst items')) as Hnd'.
  { apply (NoDup_Permutation_proper _ _ (Permutation_map fst Hperm)), Hnd. }
  assert (Forall (bytes_key key_size) items') as Hk' by now rewrite <- Hperm.
  apply (StronglySorted_unique_strong key_lt).
  - intros x1 x2 _ _ H1 H2. unfold key_lt in *.
    rewrite (bytes_compare_antisym (fst x1) (fst x2)), H1 in H2. discriminate.
  - apply sorted_strict; [|apply sort_keyed_sorted].
    now apply (decorated_keys_nodup key_size).
  - apply sorted_strict; [|apply sort_keyed_sorted].
    now apply (decorated_keys_nodup key_size).
  - rewrite !sort_keyed_perm. unfold decorate. apply Permutation_map.
    now symmetry.
Qed.

(** X14: the order in which the mapping yields its items does not matter:
    with valid, pairwise distinct keys the build of the same items in
    another order has the same outcome and leaves the same world. *)
Theorem build_order_independent index_folder basename seq_dict seq_dict' key_size w :
  Forall (bytes_key key_size) seq_dict ->
  NoDup (map fst seq_dict) ->
  Permutation seq_dict seq_dict' ->
  build_sequence_store index_folder basename seq_dict' w =
  build_sequence_store index_folder basename seq_dict w.
Proof.
  intros Hk Hnd Hperm.
  destruct seq_dict as [|it rest].
  { apply Permutation_nil in Hperm. now subst. }
  assert (seq_dict' <> []) as Hne'.
  { intros ->. symmetry in Hperm. apply Permutation_nil in Hperm. discriminate. }
  assert (Forall (bytes_key key_size) seq_dict') as Hk' by now rewrite <- Hperm.
  rewrite (build_valid index_folder basename seq_dict' key_size w Hne' Hk').
  rewrite (build_valid index_folder basename (it :: rest) key_size w
             ltac:(discriminate) Hk).
  cbv zeta. now rewrite (sorted_items_order key_size _ _ Hk Hnd Hperm).
Qed.

Lemma build_order_independent_witness :
  build_sequence_store "dir" "seqs" scenario_reordered world0 =
  build_sequence_store "dir" "seqs" scenario world0.
Proof.
  apply (build_order_independent "dir" "seqs" scenario scenario_reordered 4 world0).
  - repeat constructor.
  - distinct_keys.
  - unfold scenario, scenario_reordered.
    etransitivity; [apply perm_skip, perm_swap|apply perm_swap].
Defined.

(** ** Files that are there already *)

Lemma opened_put_file a c x y w :
  opened a (opened c (put_file a x (put_file c y w))) = opened a (opened c w).
Proof.
  unfold opened, put_file. cbn [w_files w_live w_next w_faulty w_trace].
  f_equal. apply map_eq. intros p. rewrite !lookup_insert.
  repeat case_decide; congruence.
Qed.

(** X15: what the two files of the store held before does not matter to
    a build past the validation: both are truncated when they are opened,
    also when the build fails later. *)
Theorem build_replaces_old_files index_folder basename seq_dict key_size w
    old_index old_data :
  seq_dict <> [] ->
  Forall (bytes_key key_size) seq_dict ->
  build_sequence_store index_folder basename seq_dict
    (put_file (index_path_of index_folder basename) old_index
       (put_file (data_path_of index_folder basename) old_data w)) =
  build_sequence_store index_folder basename seq_dict w.
Proof.
  intros Hne Hk.
  rewrite !(build_valid index_folder basename seq_dict key_size _ Hne Hk).
  cbv zeta. cbn [put_file w_next f_path]. now rewrite opened_put_file.
Qed.

Lemma build_replaces_old_files_witness :
  build_sequence_store "dir" "seqs" scenario
    (put_file (index_path_of "dir" "seqs") (b "old index")
       (put_file (data_path_of "dir" "seqs") (b "old data") busy_world)) =
  build_sequence_store "dir" "seqs" scenario busy_world.
Proof.
  apply (build_replaces_old_files "dir" "seqs" scenario 4 busy_world).
  - discriminate.
  - repeat constructor.
Defined.

(** * More on opening and closing *)

(** ** Opening *)

(** X16: when a file of the store is missing [__init__] raises
    [FileNotFoundError] for it and no file changes; when it is the data
    file, the file object of the index file is open by then and stays
    open. *)
Theorem init_missing_file index_path data_path w :
  w_files w !! index_path = None \/ w_files w !! data_path = None ->
  exists path w1,
    __init__ index_path data_path w = (Raise (FileNotFoundError path), w1) /\
    w_files w1 = w_files w /\
    ((path = index_path /\ w_files w !! index_path = None /\ w1 = w) \/
     (path = data_path /\ is_Some (w_files w !! index_path) /\
      w_live w1 = {[w_next w]} ∪ w_live w)).
Proof.
  intros Hmissing.
  destruct (w_files w !! index_path) as [ibuf|] eqn:Hi.
  - destruct Hmissing as [|Hd]; [discriminate|].
    exists data_path. eexists. split.
    + unfold __init__, bind, open_rb, alloc. rewrite Hi.
      cbn [w_files]. rewrite Hd. reflexivity.
    + split; [reflexivity|]. right. split; [reflexivity|]. split; [eauto|].
      reflexivity.
  - exists index_path, w. split.
    + unfold __init__, bind, open_rb. now rewrite Hi.
    + split; [reflexivity|]. left. auto.
Qed.

Lemma init_missing_file_witness :
  exists path w1,
    __init__ "seqs.mmidx" "seqs.mmdata" index_only_world =
      (Raise (FileNotFoundError path), w1) /\
    w_files w1 = w_files index_only_world /\
    ((path = "seqs.mmidx"%string /\
      w_files index_only_world !! "seqs.mmidx"%string = None /\
      w1 = index_only_world) \/
     (path = "seqs.mmdata"%string /\
      is_Some (w_files index_only_world !! "seqs.mmidx"%string) /\
      w_live w1 = {[w_next index_only_world]} ∪ w_live index_only_world)).
Proof.
  apply (init_missing_file "seqs.mmidx" "seqs.mmdata" index_only_world).
  right. vm_compute. reflexivity.
Defined.

Lemma init_empty_data index_path data_path w ibuf :
  w_files w !! index_path = Some ibuf ->
  w_files w !! data_path = Some [] ->
  ibuf <> [] ->
  __init__ index_path data_path w =
    (Raise (ValueError "cannot mmap an empty file"),
     World (w_files w)
           ({[S (S (w_next w))]} ∪ ({[S (w_next w)]} ∪ ({[w_next w]} ∪ w_live w)))
           (S (S (S (w_next w)))) (w_faulty w) (w_trace w)).
Proof.
  intros Hi Hd Hin.
  unfold __init__, bind, open_rb, mmap_mmap, lift, alloc. rewrite Hi.
  cbn [w_files w_live w_next w_faulty w_trace]. rewrite Hd.
  cbv beta iota. cbn [f_id f_path w_files w_live w_next w_faulty w_trace].
  decide_live. rewrite Hi.
  destruct ibuf as [|x ibuf]; [contradiction|].
  cbv beta iota. cbn [f_id f_path w_files w_live w_next w_faulty w_trace].
  decide_live. now rewrite Hd.
Qed.

(** X17: whatever its outcome, [__init__] changes no file and releases
    nothing: every resource it opened is live when it returns or raises. *)
Theorem init_releases_nothing index_path data_path w :
  let w1 := snd (__init__ index_path data_path w) in
  w_files w1 = w_files w /\
  (w_next w <= w_next w1)%nat /\
  forall i, i ∈ w_live w1 <->
            i ∈ w_live w \/ (w_next w <= i < w_next w1)%nat.
Proof.
  cbv zeta.
  assert (forall w' : world,
            w' = w \/
            w' = World (w_files w) ({[w_next w]} ∪ w_live w) (S (w_next w))
                   (w_faulty w) (w_trace w) \/
            w' = World (w_files w) ({[S (w_next w)]} ∪ ({[w_next w]} ∪ w_live w))
                   (S (S (w_next w))) (w_faulty w) (w_trace w) \/
            w' = World (w_files w)
                   ({[S (S (w_next w))]} ∪
                    ({[S (w_next w)]} ∪ ({[w_next w]} ∪ w_live w)))
                   (S (S (S (w_next w)))) (w_faulty w) (w_trace w) \/
            w' = mapped w ->
            w_files w' = w_files w /\
            (w_next w <= w_next w')%nat /\
            forall i, i ∈ w_live w' <->
                      i ∈ w_live w \/ (w_next w <= i < w_next w')%nat) as Hcases.
  { intros w' [-> | [-> | [-> | [-> | ->]]]];
      cbn [mapped w_files w_live w_next];
      (split; [reflexivity|]); (split; [lia|]); intros i;
      rewrite ?elem_of_union, ?elem_of_singleton; intuition lia. }
  apply Hcases. clear Hcases.
  destruct (w_files w !! index_path) as [ibuf|] eqn:Hi.
  2:{ left. unfold __init__, bind, open_rb. now rewrite Hi. }
  destruct (w_files w !! data_path) as [dbuf|] eqn:Hd.
  2:{ right. left. unfold __init__, bind, open_rb, alloc. rewrite Hi.
      cbn [w_files]. now rewrite Hd. }
  destruct ibuf as [|x ibuf].
  { right. right. left.
    unfold __init__, bind, open_rb, mmap_mmap, alloc. rewrite Hi.
    cbn [w_files w_live w_next w_faulty w_trace]. rewrite Hd.
    cbv beta iota. cbn [f_id f_path w_files w_live w_next w_faulty w_trace].
    decide_live. now rewrite Hi. }
  destruct dbuf as [|y dbuf].
  { right. right. right. left.
    now rewrite (init_empty_data _ _ _ _ Hi Hd). }
  right. right. right. right.
  rewrite (init_run _ _ _ _ _ Hi Hd) by discriminate.
  destruct (HEADER_STRUCT.unpack_from (x :: ibuf) 0) as [[[magic key_size] count]|e];
    [|reflexivity].
  destruct (negb (bytes_eqb magic MAGIC)); reflexivity.
Qed.

(** X18: a store that was built can be opened when some value is not
    empty.  When every value is empty the data file is empty, and
    [__init__] raises [ValueError] from the mapping of it, three resources
    being open by then. *)
Theorem open_after_build index_folder basename seq_dict w w1 :
  seq_dict <> [] ->
  build_sequence_store index_folder basename seq_dict w = (Ok tt, w1) ->
  let index_path := index_path_of index_folder basename in
  let data_path := data_path_of index_folder basename in
  (0 < data_len seq_dict ->
     exists self,
       __init__ index_path data_path w1 = (Ok self, mapped w1) /\
       __len__ self = len seq_dict) /\
  (data_len seq_dict = 0 ->
     exists w2,
       __init__ index_path data_path w1 =
         (Raise (ValueError "cannot mmap an empty file"), w2) /\
       w_next w1 ∈ w_live w2 /\ S (w_next w1) ∈ w_live w2 /\
       S (S (w_next w1)) ∈ w_live w2).
Proof.
  intros Hne Hrun. cbv zeta.
  destruct (build_ok_inv _ _ _ _ _ Hne Hrun)
    as (key_size & header & recs & Hk & Hh & Hp & ->).
  pose proof (pack_items_data_len _ _ _ Hp) as Hlen.
  rewrite (data_len_perm _ _ (sorted_items_perm seq_dict)) in Hlen.
  destruct (header_pack_ok _ _ _ _ Hh) as (Hheader & Hks & Hcnt).
  assert (w_files (built_world w (data_path_of index_folder basename)
                     (index_path_of index_folder basename) header recs)
            !! index_path_of index_folder basename =
          Some (header ++ index_records recs)) as Hi.
  { cbn [built_world w_files]. apply lookup_insert_eq. }
  assert (w_files (built_world w (data_path_of index_folder basename)
                     (index_path_of index_folder basename) header recs)
            !! data_path_of index_folder basename =
          Some (data_bytes recs)) as Hd.
  { cbn [built_world w_files].
    rewrite lookup_insert_ne by apply not_eq_sym, paths_differ.
    apply lookup_insert_eq. }
  assert (header ++ index_records recs <> []) as Hin.
  { rewrite Hheader. discriminate. }
  split.
  - intros Hpos.
    assert (HEADER_STRUCT.unpack_from (header ++ index_records recs) 0 =
            Ok (MAGIC, key_size, len (sorted_items seq_dict))) as Hu.
    { rewrite Hheader. now apply header_unpack. }
    eexists. split.
    + rewrite (init_run _ _ _ _ _ Hi Hd Hin)
        by (intros E; rewrite E in Hlen; unfold len in Hlen; simpl in Hlen; lia).
      rewrite Hu, bytes_compare_refl_eqb. cbn [negb]. reflexivity.
    + unfold __len__. cbn [opened_store _count]. apply len_sorted_items.
  - intros Hzero. rewrite Hzero in Hlen.
    assert (data_bytes recs = []) as Hnil.
    { destruct (data_bytes recs); [reflexivity|]. unfold len in Hlen.
      simpl in Hlen. lia. }
    rewrite Hnil in Hd. rewrite (init_empty_data _ _ _ _ Hi Hd Hin).
    eexists. split; [reflexivity|]. cbn [w_live].
    repeat split; rewrite !elem_of_union, !elem_of_singleton; auto.
Qed.

Lemma open_after_build_witness :
  (0 < data_len only_empty ->
     exists self,
       __init__ (index_path_of "dir" "seqs") (data_path_of "dir" "seqs")
         (built only_empty) = (Ok self, mapped (built only_empty)) /\
       __len__ self = len only_empty) /\
  (data_len only_empty = 0 ->
     exists w2,
       __init__ (index_path_of "dir" "seqs") (data_path_of "dir" "seqs")
         (built only_empty) =
         (Raise (ValueError "cannot mmap an empty file"), w2) /\
       w_next (built only_empty) ∈ w_live w2 /\
       S (w_next (built only_empty)) ∈ w_live w2 /\
       S (S (w_next (built only_empty))) ∈ w_live w2).
Proof.
  apply (open_after_build "dir" "seqs" only_empty world0 (built only_empty)).
  - discriminate.
  - vm_compute. reflexivity.
Defined.

(** ** Closing *)

Lemma release_dead i w : i ∉ w_live w -> release i w = (Ok tt, w).
Proof. intros H. unfold release. now rewrite decide_False. Qed.

(** A release that does not raise takes the resource, and nothing else,
    from the live ones. *)
Lemma release_run i w r w' :
  release i w = (r, w') ->
  w_files w' = w_files w /\ w_next w' = w_next w /\ w_faulty w' = w_faulty w /\
  (r = Ok tt -> forall j, j ∈ w_live w' <-> j ∈ w_live w /\ j <> i).
Proof.
  unfold release.
  destruct (decide (i ∈ w_live w)) as [Hl|Hl];
    [destruct (decide (i ∈ w_faulty w))|]; intros [= <- <-];
    cbn [w_files w_live w_next w_faulty];
    (split; [reflexivity|]); (split; [reflexivity|]); (split; [reflexivity|]).
  - discriminate.
  - intros _ j. rewrite elem_of_difference, elem_of_singleton. reflexivity.
  - intros _ j. split; [|tauto].
    intros H. split; [exact H|]. intros ->. contradiction.
Qed.

(** A [close] that returns released the four resources, and nothing else. *)
Lemma close_ok_inv self w w' :
  close self w = (Ok tt, w') ->
  w_files w' = w_files w /\ w_next w' = w_next w /\ w_faulty w' = w_faulty w /\
  forall j, j ∈ w_live w' <->
            j ∈ w_live w /\ j <> mm_id (_index_mm self) /\
            j <> f_id (_index_fd self) /\ j <> mm_id (_data_mm self) /\
            j <> f_id (_data_fd self).
Proof.
  unfold close, bind, try_finally.
  destruct (release (mm_id (_index_mm self)) w) as [r1 w1] eqn:E1.
  destruct (release (f_id (_index_fd self)) w1) as [r2 w2] eqn:E2.
  destruct r2 as [[]|]; [|discriminate]. destruct r1 as [[]|]; [|discriminate].
  destruct (release (mm_id (_data_mm self)) w2) as [r3 w3] eqn:E3.
  destruct (release (f_id (_data_fd self)) w3) as [r4 w4] eqn:E4.
  destruct r4 as [[]|]; [|discriminate]. destruct r3 as [[]|]; [|discriminate].
  intros [= <-].
  apply release_run in E1 as (Hf1 & Hn1 & Hq1 & Hl1).
  apply release_run in E2 as (Hf2 & Hn2 & Hq2 & Hl2).
  apply release_run in E3 as (Hf3 & Hn3 & Hq3 & Hl3).
  apply release_run in E4 as (Hf4 & Hn4 & Hq4 & Hl4).
  split; [congruence|]. split; [congruence|]. split; [congruence|].
  intros j. rewrite (Hl4 eq_refl), (Hl3 eq_refl), (Hl2 eq_refl), (Hl1 eq_refl).
  tauto.
Qed.

(** X19: [close] can be called again: after a [close] that returned, a
    second one returns as well and changes nothing. *)
Theorem close_twice self w w1 :
  close self w = (Ok tt, w1) ->
  close self w1 = (Ok tt, w1).
Proof.
  intros Hclose. apply close_ok_inv in Hclose as (_ & _ & _ & Hlive).
  unfold close, bind, try_finally.
  rewrite !release_dead; try reflexivity; intros Hin; apply Hlive in Hin; tauto.
Qed.

Lemma close_twice_witness :
  close scenario_self (snd (close scenario_self (mapped scenario_world))) =
    (Ok tt, snd (close scenario_self (mapped scenario_world))).
Proof.
  apply (close_twice scenario_self (mapped scenario_world)).
  vm_compute. reflexivity.
Defined.

(** X20: opening a store and closing it leaves the resources as they
    were: when no release fails, [close] returns, the four resources of
    [__init__] are released and the files are as before. *)
Theorem init_then_close index_path data_path w self w1 :
  fresh_ids w ->
  w_faulty w = ∅ ->
  __init__ index_path data_path w = (Ok self, w1) ->
  exists w2,
    close self w1 = (Ok tt, w2) /\
    w_live w2 = w_live w /\
    w_files w2 = w_files w.
Proof.
  intros Hfresh Hfaulty Hinit.
  destruct (init_ok_inv _ _ _ _ _ Hinit) as (ibuf & dbuf & _ & _ & _ & _ & Hself & ->).
  destruct (close_releases_all self (mapped w)) as (w2 & Hclose & _);
    [exact Hfaulty|].
  exists w2. split; [exact Hclose|].
  apply close_ok_inv in Hclose as (Hfiles & _ & _ & Hlive).
  split; [|exact Hfiles].
  apply set_eq. intros j. rewrite Hlive, Hself.
  cbn [opened_store _index_mm _index_fd _data_mm _data_fd mm_id f_id mapped w_live].
  rewrite !elem_of_union, !elem_of_singleton. specialize (Hfresh j).
  split; [intros [[?|[?|[?|[?|?]]]] ?]; [lia..|assumption]|].
  intros Hj. specialize (Hfresh Hj). repeat split; auto; lia.
Qed.

Lemma init_then_close_witness :
  exists w2,
    close scenario_self (mapped scenario_world) = (Ok tt, w2) /\
    w_live w2 = w_live scenario_world /\
    w_files w2 = w_files scenario_world.
Proof.
  apply (init_then_close (index_path_of "dir" "seqs") (data_path_of "dir" "seqs")
           scenario_world scenario_self (mapped scenario_world)).
  - intros i Hi.
    replace (w_live scenario_world) with (∅ : gset nat) in Hi
      by (vm_compute; reflexivity).
    now apply not_elem_of_empty in Hi.
  - vm_compute. reflexivity.
  - vm_compute. reflexivity.
Defined.
